(** * Batched, resumable distance-matrix computation (bike_station_distances.py)

    A shallow embedding of the matrix engine of the repository:

    - [src/src/bike_station_distances.py], class
      [BikeStationDistanceCalculator] (progress file, resumption):
      module [Resumable] below;
    - the same file's module-level [calculate_distances(stations)]
      (NaN-filled matrix, no progress file): module [Windowed];
    - [src/bike_station_distances.py], the earlier class without a
      progress file: module [Basic].

    Integers are [Z]; Python's [range] is written out with its length
    formula; the remote service is an oracle indexed by the pair of index
    windows whose coordinates are sent (the station table is fixed during
    a run, so the coordinates are a function of the window); the progress
    file and the observable actions (remote call, save, sleep) live in an
    explicit world that is threaded through the loops. *)

From Stdlib Require Import ZArith List Bool Lia.
Import ListNotations.
Local Open Scope Z_scope.

(** ** Exceptions the modelled code can raise *)

Inductive exn : Type :=
| ValueError        (* range() arg 3 must not be zero *)
| KeyError          (* progress['processed_batches'] / progress['distances'] *)
| IndexError        (* batch[0] / batch[1] on a short list *)
| JSONDecodeError   (* json.load on text that is not JSON *)
| OSError.          (* open() on a file that cannot be read *)

(** ** Python's [range(start, stop, step)] *)

(** Number of items, as CPython computes it. *)
Definition range_len (start stop step : Z) : Z :=
  if 0 <? step then
    if start <? stop then (stop - start - 1) / step + 1 else 0
  else
    if stop <? start then (start - stop - 1) / (- step) + 1 else 0.

Definition py_range (start stop step : Z) : exn + list Z :=
  if step =? 0 then inl ValueError
  else inr (map (fun k => start + Z.of_nat k * step)
                (seq 0 (Z.to_nat (range_len start stop step)))).

(** ** Index windows and the batch-building step *)

(** A window is the pair [[start, end]] appended to [indices]; it stands
    for the half-open range [start .. end-1]. *)
Definition window : Type := (Z * Z)%type.

Definition win_len (w : window) : Z := snd w - fst w.

Definition in_window (w : window) (i : Z) : bool :=
  (fst w <=? i) && (i <? snd w).

(** Body of [for i in range(...): indices.append([prev, i]); prev = i],
    on the pair (indices, prev). *)
Definition batch_step (st : list window * Z) (i : Z) : list window * Z :=
  (fst st ++ [(snd st, i)], i).

(** Lines 112-118 of the class method (57-63 in the earlier file):
<<
    indices = []
    prev = 0
    for i in range(batch_size, n_stations, batch_size):
        indices.append([prev, i])
        prev = i
    indices.append([prev, n_stations])
>> *)
Definition create_batches (batch_size n_stations : Z) : exn + list window :=
  match py_range batch_size n_stations batch_size with
  | inl e => inl e
  | inr cuts =>
      let st := fold_left batch_step cuts ([], 0) in
      inr (fst st ++ [(snd st, n_stations)])
  end.

(** The windows the module-level function walks through:
<<
    for i in range(0, n_stations, WINDOW_SIZE):
        i_end = min(i + WINDOW_SIZE, n_stations)
>> *)
Definition WINDOW_SIZE : Z := 80.

Definition stride_windows (size n_stations : Z) : exn + list window :=
  match py_range 0 n_stations size with
  | inl e => inl e
  | inr starts => inr (map (fun i => (i, Z.min (i + size) n_stations)) starts)
  end.

(** ** Reference description of a partition, used to state results *)

(** The [k]-th window of a partition of [0 .. n-1] in steps of [w]. *)
Definition nth_window (w n : Z) (k : nat) : window :=
  (Z.of_nat k * w, Z.min ((Z.of_nat k + 1) * w) n).

(** [ceil (n / w)] for positive [w]. *)
Definition ceil_div (n w : Z) : Z := (n + w - 1) / w.

(** Consecutive windows share their boundary. *)
Fixpoint chained (from : Z) (ws : list window) (to : Z) : Prop :=
  match ws with
  | [] => from = to
  | w :: rest => fst w = from /\ chained (snd w) rest to
  end.

(** ** Matrix cells and matrices *)

(** A cell is a float in the source.  The code only stores and copies
    cells, so a number is kept as an integer payload (metres); NaN is the
    fill value of [np.full(..., np.nan)]. *)
Inductive cell : Type :=
| NaN
| Num (v : Z).

Definition matrix : Type := list (list cell).

(** [np.full((rows, cols), c)] *)
Definition full (rows cols : nat) (c : cell) : matrix :=
  repeat (repeat c cols) rows.

(** [np.zeros((n, n))] *)
Definition zeros (n : nat) : matrix := full n n (Num 0).

(** The values a successful request assigns to a slice, by row and column
    offset inside the slice. *)
Definition block : Type := Z -> Z -> cell.

Fixpoint imap {A B : Type} (f : Z -> A -> B) (i : Z) (l : list A) : list B :=
  match l with
  | [] => []
  | x :: rest => f i x :: imap f (i + 1) rest
  end.

(** [m[o0:o1, d0:d1] = b] for non-negative bounds; a slice is clipped to
    the matrix, as numpy does. *)
Definition assign_block (m : matrix) (o d : window) (b : block) : matrix :=
  imap (fun i row =>
          if in_window o i
          then imap (fun j c =>
                       if in_window d j then b (i - fst o) (j - fst d) else c)
                    0 row
          else row)
       0 m.

(** ** The remote service, the progress file and the observable actions *)

(** Outcome of the [try] body up to the slice assignment (lines 133-137)
    for the coordinates of an origin window and a destination window:
    [Some b] when the request returned and the assignment went through,
    [None] when anything in it raised (HTTP error, time-out, missing
    "distances", shape mismatch). *)
Definition client : Type := window -> window -> option block.

Inductive event : Type :=
| Call (o d : window)                       (* requests.post *)
| Save (m : matrix) (p : list window)       (* save_progress *)
| Sleep.                                    (* time.sleep(rate_limit) *)

(** What [json.load] yields for the progress file, restricted to the two
    keys that are read back ('last_updated' is written but never read). *)
Record progress_doc : Type := {
  distances : option matrix;
  processed_batches : option (list (list Z))
}.

Inductive file : Type :=
| Missing                       (* os.path.exists is False *)
| Unreadable                    (* open() raises *)
| NotJson                       (* json.load raises *)
| Json (doc : progress_doc).

Record world : Type := {
  progress_file : file;
  trace : list event            (* oldest first *)
}.

Definition emit (e : event) (w : world) : world :=
  {| progress_file := progress_file w; trace := trace w ++ [e] |}.

Definition is_call (e : event) : bool :=
  match e with Call _ _ => true | _ => false end.

Definition calls (t : list event) : list event := filter is_call t.

(** A trace on which a rate-limit wait separates any two remote calls
    (it is enough to ask it of consecutive ones). *)
Definition waits_between_calls (t : list event) : Prop :=
  forall pre o d mid o' d' post,
    t = pre ++ Call o d :: mid ++ Call o' d' :: post ->
    In Sleep mid.

(** ** The resumable class (src/src/bike_station_distances.py) *)

Module Resumable.

(** [(batch[0], batch[1]) for batch in progress['processed_batches']] *)
Fixpoint to_pairs (bs : list (list Z)) : exn + list window :=
  match bs with
  | [] => inr []
  | (a :: b :: _) :: rest =>
      match to_pairs rest with
      | inl e => inl e
      | inr ps => inr ((a, b) :: ps)
      end
  | _ :: _ => inl IndexError
  end.

(** Lines 47-59. *)
Definition load_progress (f : file) : exn + (option matrix * list window) :=
  match f with
  | Missing => inr (None, [])
  | Unreadable => inl OSError
  | NotJson => inl JSONDecodeError
  | Json doc =>
      match processed_batches doc with
      | None => inl KeyError
      | Some bs =>
          match to_pairs bs with
          | inl e => inl e
          | inr ps =>
              match distances doc with
              | None => inl KeyError
              | Some m => inr (Some m, ps)
              end
          end
      end
  end.

(** Lines 61-78: the file is overwritten with the matrix and the list
    (a tuple is written as a two-element array). *)
Definition save_progress (m : matrix) (p : list window) (w : world) : world :=
  {| progress_file :=
       Json {| distances := Some m;
               processed_batches := Some (map (fun b => [fst b; snd b]) p) |};
     trace := trace w ++ [Save m p] |}.

Definition loop_state : Type := (matrix * list window * world)%type.

Definition st_matrix (st : loop_state) : matrix := fst (fst st).
Definition st_processed (st : loop_state) : list window := snd (fst st).
Definition st_world (st : loop_state) : world := snd st.

(** Body of the destination loop, lines 129-151. *)
Definition request_step (api : client) (o : window)
           (st : loop_state) (d : window) : loop_state :=
  let w1 := emit (Call o d) (st_world st) in
  match api o d with
  | Some b =>
      let m' := assign_block (st_matrix st) o d b in
      let p' := st_processed st ++ [o] in
      (m', p', emit Sleep (save_progress m' p' w1))
  | None =>
      (st_matrix st, st_processed st,
       save_progress (st_matrix st) (st_processed st) w1)
  end.

(** Line 123:
    [any(origin_idx[0] == batch[0] and origin_idx[1] == batch[1] ...)] *)
Definition already_processed (o : window) (p : list window) : bool :=
  existsb (fun batch => (fst o =? fst batch) && (snd o =? snd batch)) p.

(** Body of the origin loop, lines 121-151. *)
Definition origin_step (api : client) (indices : list window)
           (st : loop_state) (o : window) : loop_state :=
  if already_processed o (st_processed st) then st
  else fold_left (request_step api o) indices st.

(** State before the origin loop, lines 105-118. *)
Definition prepare (n_stations : nat) (batch_size : Z) (w : world)
  : exn + (list window * loop_state) :=
  match load_progress (progress_file w) with
  | inl e => inl e
  | inr (loaded, p) =>
      let m0 := match loaded with
                | Some m => m
                | None => zeros n_stations
                end in
      match create_batches batch_size (Z.of_nat n_stations) with
      | inl e => inl e
      | inr indices => inr (indices, (m0, p, w))
      end
  end.

(** [calculate_distances(self, data, batch_size)], with
    [n_stations = data.shape[0]]. *)
Definition calculate_distances (api : client) (n_stations : nat)
           (batch_size : Z) (w : world) : world * (exn + matrix) :=
  match prepare n_stations batch_size w with
  | inl e => (w, inl e)
  | inr (indices, st0) =>
      let st := fold_left (origin_step api indices) indices st0 in
      (st_world st, inr (st_matrix st))
  end.

(** The world left behind by a process that is killed after it has gone
    through the first [i] origin windows and the first [k] destination
    windows of the next one. *)
Definition killed_run (api : client) (n_stations : nat) (batch_size : Z)
           (i k : nat) (w : world) : world :=
  match prepare n_stations batch_size w with
  | inl _ => w
  | inr (indices, st0) =>
      let st := fold_left (origin_step api indices) (firstn i indices) st0 in
      match nth_error indices i with
      | Some o => st_world (origin_step api (firstn k indices) st o)
      | None => st_world st
      end
  end.

End Resumable.

(** A new process started on the file a previous one left behind. *)
Definition restart (w : world) : world :=
  {| progress_file := progress_file w; trace := [] |}.

(** The list of processed batches a new process would read back. *)
Definition stored_batches (f : file) : list window :=
  match Resumable.load_progress f with
  | inr (_, p) => p
  | inl _ => []
  end.

(** The file holds exactly the matrix and the list the loop works on. *)
Definition synced (st : Resumable.loop_state) : Prop :=
  Resumable.load_progress (progress_file (Resumable.st_world st))
  = inr (Some (Resumable.st_matrix st), Resumable.st_processed st).

(** Either that, or no file has been written yet. *)
Definition settled (st : Resumable.loop_state) : Prop :=
  synced st \/ progress_file (Resumable.st_world st) = Missing.

(** Number of destination windows of [indices] on which the request for
    origin [o] succeeds. *)
Definition successes (api : client) (o : window) (indices : list window) : nat :=
  length (filter (fun d => match api o d with Some _ => true | None => false end)
                 indices).

Definition window_eqb (a b : window) : bool :=
  (fst a =? fst b) && (snd a =? snd b).

(** Number of entries of a list of processed batches equal to [o]. *)
Definition occurrences (o : window) (p : list window) : nat :=
  length (filter (window_eqb o) p).

(** A progress file on which [load_progress] has nothing usable to read:
    it cannot be opened, is not JSON, lacks one of the two keys, or lists
    a batch with fewer than two entries. *)
Definition malformed (f : file) : Prop :=
  match f with
  | Missing => False
  | Unreadable => True
  | NotJson => True
  | Json doc =>
      distances doc = None \/
      match processed_batches doc with
      | None => True
      | Some bs => exists b, In b bs /\ (length b < 2)%nat
      end
  end.

(** ** The earlier class without a progress file
       (src/bike_station_distances.py) *)

Module Basic.

Definition loop_state : Type := (matrix * list event)%type.

(** Body of the destination loop, lines 69-85. *)
Definition request_step (api : client) (o : window)
           (st : loop_state) (d : window) : loop_state :=
  let t1 := snd st ++ [Call o d] in
  match api o d with
  | Some b => (assign_block (fst st) o d b, t1 ++ [Sleep])
  | None => (fst st, t1)
  end.

Definition origin_step (api : client) (indices : list window)
           (st : loop_state) (o : window) : loop_state :=
  fold_left (request_step api o) indices st.

Definition calculate_distances (api : client) (n_stations : nat)
           (batch_size : Z) : exn + (matrix * list event) :=
  match create_batches batch_size (Z.of_nat n_stations) with
  | inl e => inl e
  | inr indices =>
      inr (fold_left (origin_step api indices) indices (zeros n_stations, []))
  end.

End Basic.

(** ** The module-level function of src/src/bike_station_distances.py *)

Module Windowed.

(** Outcome of the [try] body, lines 221-244. *)
Inductive reply : Type :=
| RequestException            (* caught: logged, no wait, next window *)
| Distances (b : block)       (* 'distances' present and assigned *)
| NoDistances                 (* 2xx answer without 'distances' *)
| Raises (e : exn).           (* any other exception: not caught *)

Definition service : Type := window -> window -> reply.

Definition loop_state : Type := ((exn + matrix) * list event)%type.

Definition request_step (api : service) (o : window)
           (st : loop_state) (d : window) : loop_state :=
  match fst st with
  | inl _ => st
  | inr m =>
      let t1 := snd st ++ [Call o d] in
      match api o d with
      | RequestException => (inr m, t1)
      | Distances b => (inr (assign_block m o d b), t1 ++ [Sleep])
      | NoDistances => (inr m, t1 ++ [Sleep])
      | Raises e => (inl e, t1)
      end
  end.

Definition origin_step (api : service) (ws : list window)
           (st : loop_state) (o : window) : loop_state :=
  fold_left (request_step api o) ws st.

(** [calculate_distances(stations)] for a given window size, with
    [n_stations = len(stations)]. *)
Definition calculate_distances_with (size : Z) (api : service)
           (n_stations : nat) : loop_state :=
  match stride_windows size (Z.of_nat n_stations) with
  | inl e => (inl e, [])
  | inr ws =>
      fold_left (origin_step api ws) ws
                (inr (full n_stations n_stations NaN), [])
  end.

Definition calculate_distances : service -> nat -> loop_state :=
  calculate_distances_with WINDOW_SIZE.

End Windowed.

(** ** Concrete services used in the examples *)

Definition fresh : world := {| progress_file := Missing; trace := [] |}.

(** Distance reported for stations [r] and [c]: zero on the diagonal,
    [10 * r + c + 1] elsewhere. *)
Definition sample_distance (r c : Z) : cell :=
  Num (if r =? c then 0 else 10 * r + c + 1).

(** Answers every request with the sample distances. *)
Definition api_ok : client :=
  fun o d => Some (fun i j => sample_distance (fst o + i) (fst d + j)).

(** As [api_ok], but the request for the pair [(bo, bd)] fails. *)
Definition api_fail_at (bo bd : window) : client :=
  fun o d => if window_eqb o bo && window_eqb d bd then None else api_ok o d.

(** As [api_ok], but the pair [(bo, bd)] is answered with zero distances. *)
Definition api_zero_at (bo bd : window) : client :=
  fun o d => if window_eqb o bo && window_eqb d bd
             then Some (fun _ _ => Num 0) else api_ok o d.

Definition num_rows (rows : list (list Z)) : matrix := map (map Num) rows.

(** ** The station table and the coordinate lists sent to the service *)

(** A row of [data]: the columns ID, lat, lon.  Coordinates are floats in
    the source; they are only copied, so they are kept as an integer
    payload. *)
Record station : Type := {
  station_id : Z;
  station_lat : Z;
  station_lon : Z
}.

(** [data[i]] on a numpy array: a negative index counts from the end, an
    index outside the array raises. *)
Definition np_row {A : Type} (data : list A) (i : Z) : exn + A :=
  let n := Z.of_nat (length data) in
  let k := if i <? 0 then i + n else i in
  if (0 <=? k) && (k <? n) then
    match nth_error data (Z.to_nat k) with
    | Some r => inr r
    | None => inl IndexError
    end
  else inl IndexError.

(** A list comprehension whose body can raise: the first exception ends
    it. *)
Fixpoint collect {A B : Type} (f : A -> exn + B) (l : list A) : exn + list B :=
  match l with
  | [] => inr []
  | x :: rest =>
      match f x with
      | inl e => inl e
      | inr y =>
          match collect f rest with
          | inl e => inl e
          | inr ys => inr (y :: ys)
          end
      end
  end.

(** [[lon, lat]] of a row. *)
Definition lon_lat (r : station) : list Z := [station_lon r; station_lat r].

(** [extract_coordinates(self, data, start_idx, end_idx)]:
    [[[data[i, 2], data[i, 1]] for i in range(start_idx, end_idx)]] *)
Definition extract_coordinates (data : list station) (start_idx end_idx : Z)
  : exn + list (list Z) :=
  match py_range start_idx end_idx 1 with
  | inl e => inl e
  | inr idxs =>
      collect (fun i => match np_row data i with
                        | inl e => inl e
                        | inr r => inr (lon_lat r)
                        end) idxs
  end.

(** Rows [a .. b-1] of a list. *)
Definition slice {A : Type} (l : list A) (a b : Z) : list A :=
  firstn (Z.to_nat (b - a)) (skipn (Z.to_nat a) l).

(** ** Reading a matrix and describing what a run writes *)

(** [m[i, j]] when the position exists. *)
Definition cell_at (m : matrix) (i j : nat) : option cell :=
  match nth_error m i with
  | Some row => nth_error row j
  | None => None
  end.

(** A matrix with [rows] rows of [cols] cells each. *)
Definition has_shape (m : matrix) (rows cols : nat) : Prop :=
  length m = rows /\ Forall (fun row => length row = cols) m.

(** The effect of one request on the matrix alone. *)
Definition write (api : client) (o : window) (m : matrix) (d : window)
  : matrix :=
  match api o d with
  | Some b => assign_block m o d b
  | None => m
  end.

(** The matrix after all requests for the origins [os] against the
    destinations [ds], origin by origin. *)
Definition fill (api : client) (os ds : list window) (m : matrix) : matrix :=
  fold_left (fun m' o => fold_left (write api o) ds m') os m.

(** Windows in ascending order from [lo] on: each starts no earlier than
    the previous one ends and is not reversed. *)
Fixpoint ascending (lo : Z) (ws : list window) : Prop :=
  match ws with
  | [] => True
  | x :: rest => lo <= fst x /\ fst x <= snd x /\ ascending (snd x) rest
  end.

(** All ordered pairs of windows, origin first. *)
Definition window_pairs (ws : list window) : list event :=
  flat_map (fun o => map (Call o) ws) ws.

Definition is_save (e : event) : bool :=
  match e with Save _ _ => true | _ => false end.

Definition is_sleep (e : event) : bool :=
  match e with Sleep => true | _ => false end.

(** Number of window pairs of [os] x [ds] on which the request succeeds. *)
Definition all_successes (api : client) (os ds : list window) : nat :=
  list_sum (map (fun o => successes api o ds) os).

(** The replies of the module-level function seen as a client: only a
    reply with distances writes a block. *)
Definition as_client (svc : Windowed.service) : client :=
  fun o d => match svc o d with
             | Windowed.Distances b => Some b
             | _ => None
             end.

(** No request of the run raises an exception that is not caught. *)
Definition never_raises (svc : Windowed.service) : Prop :=
  forall o d e, svc o d <> Windowed.Raises e.

(** What one request of the earlier class adds to the trace: the call,
    and a wait when the request succeeded. *)
Definition basic_chunk (api : client) (o d : window) : list event :=
  Call o d :: match api o d with Some _ => [Sleep] | None => [] end.

(** What one request of the module-level function adds to the trace: the
    call, and a wait unless the request raised. *)
Definition windowed_chunk (svc : Windowed.service) (o d : window)
  : list event :=
  Call o d :: match svc o d with
              | Windowed.Distances _ | Windowed.NoDistances => [Sleep]
              | _ => []
              end.

(** ** The request of the module-level function *)

(** [{"lat": stations.iloc[idx]['lat'], "lon": stations.iloc[idx]['lon']}] *)
Definition lat_lon (r : station) : Z * Z := (station_lat r, station_lon r).

(** [for idx in range(a, b): points.append(...)]; [iloc] indexes like a
    numpy array. *)
Definition window_points (data : list station) (a b : Z) : exn + list (Z * Z) :=
  match py_range a b 1 with
  | inl e => inl e
  | inr idxs =>
      collect (fun i => match np_row data i with
                        | inl e => inl e
                        | inr r => inr (lat_lon r)
                        end) idxs
  end.

Record payload : Type := {
  points : list (Z * Z);
  from_point : list Z;
  to_point : list Z
}.

(** Lines 207-230: the points of the origin window, then those of the
    destination window; [from_point = list(range(i_end - i))] and
    [to_point = list(range(i_end - i, len(points)))]. *)
Definition build_payload (data : list station) (i i_end j j_end : Z)
  : exn + payload :=
  match window_points data i i_end with
  | inl e => inl e
  | inr po =>
      match window_points data j j_end with
      | inl e => inl e
      | inr pd =>
          let pts := po ++ pd in
          match py_range 0 (i_end - i) 1 with
          | inl e => inl e
          | inr f =>
              match py_range (i_end - i) (Z.of_nat (length pts)) 1 with
              | inl e => inl e
              | inr t =>
                  inr {| points := pts; from_point := f; to_point := t |}
              end
          end
      end
  end.
(** ** Facts about [range] and the batch loop *)

Lemma last_cons_default {A} (l : list A) (x d : A) :
  last (x :: l) d = last l x.
Proof.
  revert x d. induction l as [|y l IH]; intros x d; [reflexivity|].
  change (last (x :: y :: l) d) with (last (y :: l) d).
  now rewrite (IH y d), (IH y x).
Qed.

Lemma fold_batch_step (cuts : list Z) (acc : list window) (prev : Z) :
  fold_left batch_step cuts (acc, prev) =
  (acc ++ combine (prev :: cuts) cuts, last cuts prev).
Proof.
  revert acc prev.
  induction cuts as [|c cuts IH]; intros acc prev.
  - simpl. now rewrite app_nil_r.
  - cbn [fold_left]. unfold batch_step at 2. cbn [fst snd].
    rewrite IH. cbn [combine]. rewrite <- app_assoc. cbn [app].
    f_equal. symmetry. apply last_cons_default.
Qed.

Lemma create_batches_unfold (w n : Z) (cuts : list Z) :
  py_range w n w = inr cuts ->
  create_batches w n = inr (combine (0 :: cuts) cuts ++ [(last cuts 0, n)]).
Proof.
  intros H. unfold create_batches. rewrite H.
  rewrite fold_batch_step. reflexivity.
Qed.

Lemma range_len_pos (w n : Z) :
  0 < w -> 1 <= n -> range_len w n w = (n - 1) / w.
Proof.
  intros Hw Hn. unfold range_len.
  destruct (Z.ltb_spec 0 w); [|lia].
  destruct (Z.ltb_spec w n).
  - replace (n - w - 1) with ((n - 1) + (-1) * w) by lia.
    rewrite Z.div_add by lia. lia.
  - symmetry. apply Z.div_small. lia.
Qed.

Lemma ceil_div_pos (w n : Z) :
  0 < w -> 1 <= n -> ceil_div n w = (n - 1) / w + 1.
Proof.
  intros Hw Hn. unfold ceil_div.
  replace (n + w - 1) with ((n - 1) + 1 * w) by lia.
  now rewrite Z.div_add by lia.
Qed.

Lemma combine_shifted (w : Z) (m a : nat) :
  combine (map (fun k => Z.of_nat k * w) (seq a m))
          (map (fun k => w + Z.of_nat k * w) (seq a m))
  = map (fun k => (Z.of_nat k * w, (Z.of_nat k + 1) * w)) (seq a m).
Proof.
  revert a. induction m as [|m IH]; intros a; [reflexivity|].
  cbn [seq map combine]. rewrite IH. f_equal. f_equal. lia.
Qed.

Lemma seq_shift_cuts (w : Z) (m : nat) :
  0 :: map (fun k => w + Z.of_nat k * w) (seq 0 m)
  = map (fun k => Z.of_nat k * w) (seq 0 (S m)).
Proof.
  cbn [seq map]. f_equal. rewrite <- seq_shift, map_map.
  apply map_ext. intros k. lia.
Qed.

Lemma combine_firstn_l {A B} (l : list A) (l' : list B) :
  combine l l' = combine (firstn (length l') l) l'.
Proof.
  revert l'. induction l as [|x l IH]; intros [|y l']; cbn; try reflexivity.
  now rewrite <- IH.
Qed.

Lemma last_map_seq (f : nat -> Z) (m : nat) (d : Z) :
  last (map f (seq 0 (S m))) d = f m.
Proof.
  rewrite seq_S, map_app. cbn [map]. now rewrite last_last.
Qed.

(** Closed form of the batch list for a positive batch size and at least
    one station: [m] full windows followed by the closing one. *)
Lemma create_batches_closed_form (w n : Z) :
  0 < w -> 1 <= n ->
  let m := Z.to_nat ((n - 1) / w) in
  create_batches w n =
  inr (map (fun k => (Z.of_nat k * w, (Z.of_nat k + 1) * w)) (seq 0 m)
       ++ [(Z.of_nat m * w, n)]).
Proof.
  intros Hw Hn m.
  assert (Hr : py_range w n w =
               inr (map (fun k => w + Z.of_nat k * w) (seq 0 m))).
  { unfold py_range. destruct (Z.eqb_spec w 0); [lia|].
    now rewrite range_len_pos by lia. }
  rewrite (create_batches_unfold w n _ Hr). f_equal. f_equal.
  - rewrite combine_firstn_l, seq_shift_cuts.
    rewrite length_map, length_seq.
    rewrite firstn_map, seq_S, firstn_app, length_seq, Nat.sub_diag.
    cbn [firstn]. rewrite app_nil_r.
    replace (firstn m (seq 0 m)) with (seq 0 m).
    + apply combine_shifted.
    + symmetry. apply firstn_all2. rewrite length_seq. apply Nat.le_refl.
  - do 2 f_equal. destruct m as [|m']; [reflexivity|].
    rewrite last_map_seq, Nat2Z.inj_succ. ring.
Qed.


(** ** The batch list at the edges of its domain *)

Lemma create_batches_zero_step (n : Z) : create_batches 0 n = inl ValueError.
Proof. reflexivity. Qed.

Lemma create_batches_negative (p : positive) (n : nat) :
  create_batches (Z.neg p) (Z.of_nat n) = inr [(0, Z.of_nat n)].
Proof.
  unfold create_batches, py_range, range_len.
  change (Z.neg p =? 0) with false. change (0 <? Z.neg p) with false.
  cbv iota. destruct n as [|n]; reflexivity.
Qed.

Lemma create_batches_no_stations (p : positive) :
  create_batches (Z.pos p) 0 = inr [(0, 0)].
Proof. reflexivity. Qed.

Lemma create_batches_positive (p : positive) (n : Z) :
  exists ws, create_batches (Z.pos p) n = inr ws.
Proof.
  unfold create_batches, py_range. change (Z.pos p =? 0) with false.
  cbv iota. eexists. reflexivity.
Qed.

Lemma create_batches_nonempty (w n : Z) (ws : list window) :
  create_batches w n = inr ws -> ws <> [].
Proof.
  unfold create_batches. destruct (py_range w n w); [discriminate|].
  intros H. injection H as <-. intros E.
  apply app_eq_nil in E. destruct E as [_ E]. discriminate.
Qed.

(** ** The progress file follows the in-memory state *)

Lemma to_pairs_written (p : list window) :
  Resumable.to_pairs (map (fun b => [fst b; snd b]) p) = inr p.
Proof.
  induction p as [|[a b] p IH]; [reflexivity|].
  cbn [map Resumable.to_pairs fst snd]. now rewrite IH.
Qed.

Lemma load_after_save (m : matrix) (p : list window) (w : world) :
  Resumable.load_progress (progress_file (Resumable.save_progress m p w))
  = inr (Some m, p).
Proof.
  cbn [Resumable.save_progress progress_file Resumable.load_progress
       processed_batches distances].
  now rewrite to_pairs_written.
Qed.

Lemma request_step_synced (api : client) (o d : window)
      (st : Resumable.loop_state) :
  synced (Resumable.request_step api o st d).
Proof.
  unfold synced, Resumable.request_step.
  destruct (api o d) as [b|]; cbn -[Resumable.load_progress Resumable.save_progress];
    apply load_after_save.
Qed.

Lemma request_step_processed (api : client) (o d : window)
      (st : Resumable.loop_state) :
  Resumable.st_processed (Resumable.request_step api o st d)
  = Resumable.st_processed st
    ++ match api o d with Some _ => [o] | None => [] end.
Proof.
  unfold Resumable.request_step.
  destruct (api o d); cbn; [reflexivity | now rewrite app_nil_r].
Qed.

Lemma requests_synced (api : client) (o : window) (ds : list window)
      (st : Resumable.loop_state) :
  synced st \/ ds <> [] ->
  synced (fold_left (Resumable.request_step api o) ds st).
Proof.
  revert st. induction ds as [|d ds IH]; intros st H.
  - destruct H as [H|H]; [exact H | contradiction].
  - cbn [fold_left]. apply IH. left. apply request_step_synced.
Qed.

Lemma requests_processed (api : client) (o : window) (ds : list window)
      (st : Resumable.loop_state) :
  Resumable.st_processed (fold_left (Resumable.request_step api o) ds st)
  = Resumable.st_processed st ++ repeat o (successes api o ds).
Proof.
  revert st. induction ds as [|d ds IH]; intros st.
  - cbn. now rewrite app_nil_r.
  - cbn [fold_left]. rewrite IH, request_step_processed, <- app_assoc.
    f_equal. unfold successes. cbn [filter].
    destruct (api o d); reflexivity.
Qed.

Lemma origin_step_settled (api : client) (indices : list window)
      (st : Resumable.loop_state) (o : window) :
  settled st -> settled (Resumable.origin_step api indices st o).
Proof.
  intros H. unfold Resumable.origin_step.
  destruct (Resumable.already_processed o (Resumable.st_processed st));
    [exact H|].
  destruct indices as [|d ds]; [exact H|].
  left. apply requests_synced. right. discriminate.
Qed.

Lemma origins_settled (api : client) (indices os : list window)
      (st : Resumable.loop_state) :
  settled st ->
  settled (fold_left (Resumable.origin_step api indices) os st).
Proof.
  revert st. induction os as [|o os IH]; intros st H; [exact H|].
  cbn [fold_left]. apply IH. now apply origin_step_settled.
Qed.

(** When every origin is already listed, the origin loop does nothing. *)
Lemma origins_all_skipped (api : client) (indices os : list window)
      (st : Resumable.loop_state) :
  (forall o, In o os ->
             Resumable.already_processed o (Resumable.st_processed st) = true) ->
  fold_left (Resumable.origin_step api indices) os st = st.
Proof.
  induction os as [|o os IH]; intros H; [reflexivity|].
  cbn [fold_left]. unfold Resumable.origin_step at 2.
  rewrite (H o (or_introl eq_refl)). apply IH.
  intros o' Ho'. apply H. now right.
Qed.

Lemma prepare_settled (n : nat) (b : Z) (w : world)
      (indices : list window) (st0 : Resumable.loop_state) :
  Resumable.prepare n b w = inr (indices, st0) ->
  settled st0 /\ create_batches b (Z.of_nat n) = inr indices
  /\ Resumable.st_world st0 = w.
Proof.
  unfold Resumable.prepare.
  destruct (Resumable.load_progress (progress_file w))
    as [e|[loaded p]] eqn:L; [discriminate|].
  destruct (create_batches b (Z.of_nat n)) as [e|ws]; [discriminate|].
  intros H. injection H as <- <-. split; [|split; reflexivity].
  destruct loaded as [m|].
  - left. exact L.
  - right. cbn. destruct (progress_file w) as [| | |doc]; try discriminate.
    + reflexivity.
    + cbn in L. destruct (processed_batches doc); [|discriminate].
      destruct (Resumable.to_pairs l); [discriminate|].
      destruct (distances doc); discriminate.
Qed.

Lemma stored_batches_synced (st : Resumable.loop_state) :
  synced st ->
  stored_batches (progress_file (Resumable.st_world st))
  = Resumable.st_processed st.
Proof. unfold synced, stored_batches. now intros ->. Qed.

Lemma occurrences_app (o : window) (p q : list window) :
  occurrences o (p ++ q) = (occurrences o p + occurrences o q)%nat.
Proof. unfold occurrences. now rewrite filter_app, length_app. Qed.

Lemma occurrences_repeat (o : window) (k : nat) :
  occurrences o (repeat o k) = k.
Proof.
  unfold occurrences. induction k as [|k IH]; [reflexivity|].
  cbn [repeat filter]. unfold window_eqb at 1. rewrite !Z.eqb_refl.
  cbn. now rewrite IH.
Qed.

Lemma occurrences_unlisted (o : window) (p : list window) :
  Resumable.already_processed o p = false -> occurrences o p = 0%nat.
Proof.
  unfold Resumable.already_processed, occurrences.
  induction p as [|b p IH]; [reflexivity|].
  cbn [existsb filter]. intros H. apply orb_false_iff in H as [H1 H2].
  unfold window_eqb at 1. rewrite H1. now apply IH.
Qed.

Lemma successes_all (api : client) (o : window) (ds : list window) :
  (forall d, In d ds -> api o d <> None) -> successes api o ds = length ds.
Proof.
  unfold successes. induction ds as [|d ds IH]; intros H; [reflexivity|].
  cbn [filter]. destruct (api o d) eqn:E.
  - cbn [length]. f_equal. apply IH. intros d' Hd'. apply H. now right.
  - exfalso. apply (H d); [now left | exact E].
Qed.

(** ** Re-running on a completed snapshot *)

(** C9. When a run has returned matrix [m] and the progress file it leaves
    behind lists every origin window of the partition, a second run started
    on that file returns the same matrix [m], issues no remote call (its
    trace stays empty) and leaves the file as it is. *)
Theorem rerun_of_completed_snapshot
        (api api' : client) (n : nat) (b : Z) (w w' : world) (m : matrix)
        (indices : list window) :
  Resumable.calculate_distances api n b w = (w', inr m) ->
  create_batches b (Z.of_nat n) = inr indices ->
  (forall o, In o indices ->
     Resumable.already_processed o (stored_batches (progress_file w')) = true) ->
  Resumable.calculate_distances api' n b (restart w') = (restart w', inr m)
  /\ calls (trace (fst (Resumable.calculate_distances api' n b (restart w'))))
     = [].
Proof.
  intros Hrun Hidx Hall.
  enough (E : Resumable.calculate_distances api' n b (restart w')
              = (restart w', inr m)) by (rewrite E; split; reflexivity).
  unfold Resumable.calculate_distances in Hrun.
  destruct (Resumable.prepare n b w) as [e|[ws st0]] eqn:P; [discriminate|].
  apply prepare_settled in P as (Hset & Hws & _).
  rewrite Hidx in Hws. injection Hws as <-.
  set (st := fold_left (Resumable.origin_step api indices) indices st0) in *.
  injection Hrun as <- <-.
  assert (Hst : settled st) by now apply origins_settled.
  destruct Hst as [Hsync|Hmiss].
  - unfold Resumable.calculate_distances, Resumable.prepare.
    cbn [restart progress_file]. rewrite Hsync, Hidx.
    rewrite origins_all_skipped; [reflexivity|].
    intros o Ho. cbn [Resumable.st_processed fst snd].
    rewrite <- (stored_batches_synced st Hsync). now apply Hall.
  - exfalso. pose proof (create_batches_nonempty _ _ _ Hidx) as Hne.
    destruct indices as [|o os]; [contradiction|].
    specialize (Hall o (or_introl eq_refl)).
    rewrite Hmiss in Hall. discriminate.
Qed.

(** ** How the list of processed batches grows *)

(** C10. A successful request appends the origin window to the list and
    writes the longer list to the progress file at once; a failed request
    writes the list unchanged.  Hence, for an origin window that is not yet
    listed and is run against [indices], the file ends up holding the old
    list followed by one copy of the origin per successful destination
    request: the origin occurs as often as requests succeeded, and
    [length indices] times when all of them did. *)
Theorem processed_list_grows_per_success
        (api : client) (indices : list window)
        (st : Resumable.loop_state) (o : window) :
  Resumable.already_processed o (Resumable.st_processed st) = false ->
  indices <> [] ->
  let st' := Resumable.origin_step api indices st o in
  stored_batches (progress_file (Resumable.st_world st'))
  = Resumable.st_processed st ++ repeat o (successes api o indices)
  /\ occurrences o (stored_batches (progress_file (Resumable.st_world st')))
     = successes api o indices
  /\ ((forall d, In d indices -> api o d <> None) ->
      occurrences o (stored_batches (progress_file (Resumable.st_world st')))
      = length indices)
  /\ (forall s d,
        stored_batches
          (progress_file
             (Resumable.st_world (Resumable.request_step api o s d)))
        = Resumable.st_processed s
          ++ match api o d with Some _ => [o] | None => [] end).
Proof.
  intros Hnew Hne st'.
  assert (Hsync : synced st').
  { subst st'. unfold Resumable.origin_step. rewrite Hnew.
    apply requests_synced. now right. }
  assert (Hp : Resumable.st_processed st'
               = Resumable.st_processed st ++ repeat o (successes api o indices)).
  { subst st'. unfold Resumable.origin_step. rewrite Hnew.
    apply requests_processed. }
  rewrite (stored_batches_synced st' Hsync), Hp.
  assert (Hocc : occurrences o (Resumable.st_processed st
                                ++ repeat o (successes api o indices))
                 = successes api o indices).
  { rewrite occurrences_app, occurrences_repeat.
    now rewrite (occurrences_unlisted _ _ Hnew). }
  repeat split.
  - exact Hocc.
  - intros Hall. rewrite Hocc. now apply successes_all.
  - intros s d.
    rewrite (stored_batches_synced _ (request_step_synced api o d s)).
    apply request_step_processed.
Qed.

(** ** The batch list is a partition when there is at least one station *)

Lemma nth_window_full (w n : Z) (k : nat) :
  0 < w -> (Z.of_nat k + 1) * w <= n ->
  nth_window w n k = (Z.of_nat k * w, (Z.of_nat k + 1) * w).
Proof. intros Hw H. unfold nth_window. f_equal. lia. Qed.

Lemma nth_window_closing (w n : Z) :
  0 < w -> 1 <= n ->
  nth_window w n (Z.to_nat ((n - 1) / w))
  = (Z.of_nat (Z.to_nat ((n - 1) / w)) * w, n).
Proof.
  intros Hw Hn. unfold nth_window. f_equal.
  assert (0 <= (n - 1) / w) by (apply Z.div_pos; lia).
  rewrite Z2Nat.id by assumption.
  pose proof (Z.mul_succ_div_gt (n - 1) w Hw). lia.
Qed.

(** The batch list, window by window. *)
Lemma create_batches_windows (w n : Z) :
  0 < w -> 1 <= n ->
  create_batches w n =
  inr (map (nth_window w n) (seq 0 (S (Z.to_nat ((n - 1) / w))))).
Proof.
  intros Hw Hn. rewrite create_batches_closed_form by assumption.
  cbv zeta. rewrite seq_S, map_app. cbn [map Nat.add].
  apply f_equal. apply f_equal2.
  - apply map_ext_in. intros k Hk. apply in_seq in Hk.
    symmetry. apply nth_window_full; [assumption|].
    assert (0 <= (n - 1) / w) by (apply Z.div_pos; lia).
    pose proof (Z.mul_div_le (n - 1) w Hw).
    assert (Z.of_nat k + 1 <= (n - 1) / w) by lia.
    nia.
  - now rewrite nth_window_closing.
Qed.

Lemma chained_windows (w n : Z) (a len : nat) :
  0 < w -> Z.of_nat (a + len) * w <= n \/ len = 0%nat ->
  chained (Z.of_nat a * w) (map (nth_window w n) (seq a len))
          (Z.of_nat (a + len) * w).
Proof.
  intros Hw. revert a. induction len as [|len IH]; intros a H.
  - cbn. now rewrite Nat.add_0_r.
  - destruct H as [H|H]; [|discriminate].
    cbn [seq map chained]. split; [reflexivity|].
    rewrite nth_window_full by nia. cbn [snd].
    replace ((Z.of_nat a + 1) * w) with (Z.of_nat (S a) * w) by lia.
    replace (a + S len)%nat with (S a + len)%nat by lia.
    apply IH. left. now replace (S a + len)%nat with (a + S len)%nat by lia.
Qed.

Lemma chained_app (from mid to : Z) (ws ws' : list window) :
  chained from ws mid -> chained mid ws' to -> chained from (ws ++ ws') to.
Proof.
  revert from. induction ws as [|x ws IH]; intros from H H'.
  - cbn in H. now subst.
  - destruct H as [H1 H2]. cbn [app chained]. split; [assumption|].
    now apply IH.
Qed.

Lemma in_nth_window (w n : Z) (k : nat) (i : Z) :
  in_window (nth_window w n k) i = true <->
  Z.of_nat k * w <= i < (Z.of_nat k + 1) * w /\ i < n.
Proof.
  unfold in_window, nth_window. cbn [fst snd].
  rewrite andb_true_iff, Z.leb_le, Z.ltb_lt. lia.
Qed.

Lemma nth_windows (w n : Z) (len k : nat) (d : window) :
  (k < len)%nat ->
  nth k (map (nth_window w n) (seq 0 len)) d = nth_window w n k.
Proof.
  intros H. rewrite (nth_indep _ d (nth_window w n 0%nat))
    by now rewrite length_map, length_seq.
  rewrite map_nth. f_equal. now rewrite seq_nth.
Qed.

Lemma closing_window_length (w n : Z) :
  0 < w -> 1 <= n ->
  n - (n - 1) / w * w = if n mod w =? 0 then w else n mod w.
Proof.
  intros Hw Hn.
  pose proof (Z.div_mod (n - 1) w ltac:(lia)) as E.
  pose proof (Z.mod_pos_bound (n - 1) w Hw) as B.
  set (q := (n - 1) / w) in *. set (r := (n - 1) mod w) in *.
  destruct (Z.eq_dec (r + 1) w) as [Hr|Hr].
  - assert (Hm : n mod w = 0).
    { symmetry. apply (Z.mod_unique n w (q + 1) 0); lia. }
    rewrite Hm. cbn. lia.
  - assert (Hm : n mod w = r + 1).
    { symmetry. apply (Z.mod_unique n w q (r + 1)); lia. }
    rewrite Hm. destruct (Z.eqb_spec (r + 1) 0); lia.
Qed.

(** For a positive batch size and at least one station the batch list has
    [ceil (n / w)] windows; they start at 0, each one begins where the
    previous one ends, and the last one ends at [n]; every window but the
    last has length [w], the last has length [n mod w], or [w] when [w]
    divides [n]; every index below [n] lies in exactly one window. *)
Lemma create_batches_partition (w n : Z) :
  0 < w -> 1 <= n ->
  exists ws,
    create_batches w n = inr ws
    /\ Z.of_nat (length ws) = ceil_div n w
    /\ chained 0 ws n
    /\ (forall k, (S k < length ws)%nat -> win_len (nth k ws (0, 0)) = w)
    /\ win_len (last ws (0, 0)) = (if n mod w =? 0 then w else n mod w)
    /\ (forall x, In x ws -> 0 < win_len x)
    /\ (forall i, 0 <= i < n ->
          exists k, (k < length ws)%nat
            /\ in_window (nth k ws (0, 0)) i = true
            /\ forall k', (k' < length ws)%nat ->
                 in_window (nth k' ws (0, 0)) i = true -> k' = k).
Proof.
  intros Hw Hn.
  set (q := (n - 1) / w). set (m := Z.to_nat q).
  assert (Hq : 0 <= q) by (apply Z.div_pos; lia).
  assert (Hm : Z.of_nat m = q) by (apply Z2Nat.id; exact Hq).
  assert (Hlo : q * w <= n - 1).
  { pose proof (Z.mul_div_le (n - 1) w Hw). fold q in H. lia. }
  assert (Hhi : n - 1 < (q + 1) * w).
  { pose proof (Z.mul_succ_div_gt (n - 1) w Hw). fold q in H. lia. }
  exists (map (nth_window w n) (seq 0 (S m))).
  assert (Hlen : length (map (nth_window w n) (seq 0 (S m))) = S m)
    by now rewrite length_map, length_seq.
  split; [now apply create_batches_windows|].
  rewrite Hlen.
  split; [rewrite ceil_div_pos by assumption; fold q; lia|].
  split.
  { rewrite seq_S, map_app. cbn [map Nat.add].
    apply chained_app with (mid := Z.of_nat m * w).
    - apply (chained_windows w n 0 m Hw). left. cbn [Nat.add]. lia.
    - unfold m, q. rewrite nth_window_closing by assumption.
      cbn. split; [|split]; reflexivity. }
  split.
  { intros k Hk. rewrite nth_windows by lia.
    rewrite nth_window_full; [unfold win_len; cbn [fst snd]; lia|lia|].
    assert (Z.of_nat k + 1 <= q) by lia. nia. }
  split.
  { rewrite seq_S, map_app. cbn [map Nat.add]. rewrite last_last.
    unfold m, q. rewrite nth_window_closing by assumption.
    unfold win_len. cbn [fst snd].
    rewrite Z2Nat.id by (apply Z.div_pos; lia).
    now apply closing_window_length. }
  split.
  { intros x Hx. apply in_map_iff in Hx as (k & <- & Hk).
    apply in_seq in Hk. unfold win_len, nth_window. cbn [fst snd].
    assert (Z.of_nat k <= q) by lia.
    assert (Z.of_nat k * w <= q * w) by nia. lia. }
  intros i Hi.
  assert (Hiq : 0 <= i / w <= q).
  { split; [apply Z.div_pos; lia|]. apply Z.div_le_mono; lia. }
  exists (Z.to_nat (i / w)).
  split; [lia|]. split.
  - rewrite nth_windows by lia. apply in_nth_window.
    rewrite Z2Nat.id by lia.
    pose proof (Z.mul_div_le i w Hw). pose proof (Z.mul_succ_div_gt i w Hw).
    lia.
  - intros k' Hk' Hin. rewrite nth_windows in Hin by lia.
    apply in_nth_window in Hin as [[H1 H2] _].
    assert (E : Z.of_nat k' = i / w).
    { apply (Z.div_unique i w (Z.of_nat k') (i - w * Z.of_nat k')); lia. }
    lia.
Qed.

(** ** Results on the claims of the specification *)

(** C1. With three stations, batch size 2 and a service that answers every
    request, the first save of the run, made right after the request for
    origin window (0,2) and destination window (0,2), already writes
    (0,2) to the list of processed batches, before the request for
    destination window (2,3) is issued; a process killed at that point
    leaves a file that lists (0,2). *)
Theorem origin_recorded_after_first_destination :
  (exists m rest,
      trace (fst (Resumable.calculate_distances api_ok 3 2 fresh))
      = Call (0, 2) (0, 2) :: Save m [(0, 2)] :: Sleep
          :: Call (0, 2) (2, 3) :: rest)
  /\ stored_batches
       (progress_file (Resumable.killed_run api_ok 3 2 0 1 fresh))
     = [(0, 2)]
  /\ Resumable.already_processed (0, 2)
       (stored_batches
          (progress_file (Resumable.killed_run api_ok 3 2 0 1 fresh)))
     = true.
Proof.
  split; [|split; vm_compute; reflexivity].
  eexists. eexists. vm_compute. reflexivity.
Qed.

(** C2. Four stations, batch size 2, a service that answers every request.
    A process is killed after it finished origin window (0,2) and the
    first destination window of origin window (2,4).  The file it leaves
    lists (2,4); a new run on that file issues no request at all and
    returns a matrix whose block (2,4) x (2,4) is still zero, whereas an
    uninterrupted run fills that block. *)
Theorem resume_skips_interrupted_origin :
  let snapshot := restart (Resumable.killed_run api_ok 4 2 1 1 fresh) in
  stored_batches (progress_file snapshot) = [(0, 2); (0, 2); (2, 4)]
  /\ Resumable.calculate_distances api_ok 4 2 snapshot
     = (snapshot,
        inr (num_rows [[0; 2; 3; 4]; [11; 0; 13; 14];
                       [21; 22; 0; 0]; [31; 32; 0; 0]]))
  /\ snd (Resumable.calculate_distances api_ok 4 2 fresh)
     = inr (num_rows [[0; 2; 3; 4]; [11; 0; 13; 14];
                      [21; 22; 0; 24]; [31; 32; 33; 0]]).
Proof. cbv zeta. repeat split; vm_compute; reflexivity. Qed.

Lemma failed_first_request_trace :
  exists m p rest,
    trace (fst (Resumable.calculate_distances
                  (api_fail_at (0, 2) (0, 2)) 3 2 fresh))
    = [] ++ Call (0, 2) (0, 2) :: [Save m p] ++ Call (0, 2) (2, 3) :: rest.
Proof. do 3 eexists. vm_compute. reflexivity. Qed.

Lemma failed_first_request_trace_basic :
  exists m rest,
    Basic.calculate_distances (api_fail_at (0, 2) (0, 2)) 3 2
    = inr (m, [] ++ Call (0, 2) (0, 2) :: [] ++ Call (0, 2) (2, 3) :: rest).
Proof. do 2 eexists. vm_compute. reflexivity. Qed.

(** C3. Three stations, batch size 2, the request for the first window
    pair fails.  The run then issues the request for the next pair with no
    wait in between: the trace of the run does not have a wait between any
    two consecutive calls.  The same holds for the earlier class. *)
Theorem failed_call_not_followed_by_wait :
  ~ waits_between_calls
      (trace (fst (Resumable.calculate_distances
                     (api_fail_at (0, 2) (0, 2)) 3 2 fresh)))
  /\ (exists m t,
         Basic.calculate_distances (api_fail_at (0, 2) (0, 2)) 3 2
         = inr (m, t)
         /\ ~ waits_between_calls t).
Proof.
  split.
  - destruct failed_first_request_trace as (m & p & rest & E).
    intros H. specialize (H _ _ _ _ _ _ _ E).
    destruct H as [H|[]]. discriminate.
  - destruct failed_first_request_trace_basic as (m & rest & E).
    eexists. eexists. split; [exact E|].
    intros H. specialize (H _ _ _ _ _ _ _ eq_refl). destruct H.
Qed.

(** C4, as stated: a malformed or unreadable progress file would make the
    run behave like a run without a file.  It does not: on a file that is
    not JSON the run ends with an exception, while the run without a file
    returns a matrix. *)
Lemma malformed_snapshot_not_fresh_start :
  ~ (forall f, malformed f ->
       forall api n b,
         snd (Resumable.calculate_distances api n b
                {| progress_file := f; trace := [] |})
         = snd (Resumable.calculate_distances api n b fresh)).
Proof.
  intros H. specialize (H NotJson I api_ok 3%nat 2).
  vm_compute in H. discriminate.
Qed.

Lemma load_progress_malformed (f : file) :
  malformed f -> exists e, Resumable.load_progress f = inl e.
Proof.
  destruct f as [| | |doc]; cbn; intros H.
  - contradiction.
  - now eexists.
  - now eexists.
  - destruct (processed_batches doc) as [bs|]; [|now eexists].
    destruct (Resumable.to_pairs bs) as [e|ps] eqn:E; [now eexists|].
    destruct H as [H|(b & Hb & Hlen)]; [rewrite H; now eexists|].
    exfalso. clear - E Hb Hlen. revert ps E.
    induction bs as [|x bs IH]; intros ps E; [contradiction|].
    cbn in E. destruct Hb as [->|Hb].
    + destruct b as [|a [|c b]]; cbn in Hlen; try discriminate. lia.
    + destruct x as [|a [|c x]]; try discriminate.
      destruct (Resumable.to_pairs bs) as [e|ps'] eqn:E'; [discriminate|].
      now apply (IH Hb ps').
Qed.

(** C4, amended.  Only a missing file is a fresh start:
    [load_progress] then returns no matrix and an empty list.  On a file
    that cannot be opened, is not JSON, lacks a key or lists a short
    batch, [load_progress] raises, and [calculate_distances] ends with
    that exception before it has issued a request or written anything. *)
Theorem malformed_snapshot_aborts (f : file) (t : list event)
        (api : client) (n : nat) (b : Z) :
  malformed f ->
  Resumable.load_progress Missing = inr (None, [])
  /\ exists e,
       Resumable.load_progress f = inl e
       /\ Resumable.calculate_distances api n b
            {| progress_file := f; trace := t |}
          = ({| progress_file := f; trace := t |}, inl e).
Proof.
  intros H. split; [reflexivity|].
  destruct (load_progress_malformed f H) as [e E].
  exists e. split; [exact E|].
  unfold Resumable.calculate_distances, Resumable.prepare.
  cbn [progress_file]. now rewrite E.
Qed.

Lemma malformed_snapshot_aborts_witness :
  malformed NotJson
  /\ Resumable.load_progress Missing = inr (None, [])
  /\ exists e,
       Resumable.load_progress NotJson = inl e
       /\ Resumable.calculate_distances api_ok 3 2
            {| progress_file := NotJson; trace := [] |}
          = ({| progress_file := NotJson; trace := [] |}, inl e).
Proof.
  split; [exact I|].
  apply (malformed_snapshot_aborts NotJson [] api_ok 3 2). exact I.
Defined.

(** C5. With no station and any positive batch size the batch list is the
    single window (0,0), not the empty list, and the run issues exactly
    one remote call, for that window against itself, before it returns the
    empty matrix.  The module-level function walks through no window and
    issues no call in that case. *)
Theorem zero_stations_one_window_one_call (api : client) (p : positive) :
  create_batches (Z.pos p) 0 = inr [(0, 0)]
  /\ calls (trace (fst (Resumable.calculate_distances api 0 (Z.pos p) fresh)))
     = [Call (0, 0) (0, 0)]
  /\ snd (Resumable.calculate_distances api 0 (Z.pos p) fresh) = inr []
  /\ stride_windows (Z.pos p) 0 = inr []
  /\ (forall svc, Windowed.calculate_distances svc 0 = (inr [], [])).
Proof.
  split; [reflexivity|].
  enough (H : calls (trace (fst (Resumable.calculate_distances
                                   api 0 (Z.pos p) fresh)))
              = [Call (0, 0) (0, 0)]
              /\ snd (Resumable.calculate_distances api 0 (Z.pos p) fresh)
                 = inr []).
  { destruct H as [H1 H2]. repeat split; assumption || reflexivity. }
  unfold Resumable.calculate_distances, Resumable.prepare.
  cbn [fresh progress_file Resumable.load_progress Z.of_nat].
  rewrite create_batches_no_stations.
  cbn [fold_left]. unfold Resumable.origin_step.
  cbn [Resumable.st_processed fst snd Resumable.already_processed existsb
       fold_left].
  unfold Resumable.request_step.
  destruct (api (0, 0) (0, 0)); split; reflexivity.
Qed.

(** C6. With no station the batch list has one window although
    [ceil (0 / w)] is 0, and that window has length zero. *)
Theorem zero_stations_zero_length_window (p : positive) :
  exists ws,
    create_batches (Z.pos p) 0 = inr ws
    /\ length ws = 1%nat
    /\ ceil_div 0 (Z.pos p) = 0
    /\ win_len (last ws (0, 0)) = 0.
Proof.
  exists [(0, 0)]. repeat split.
  unfold ceil_div. apply Z.div_small. lia.
Qed.

(** C7. Two stations, batch size 1.  When the request for the window pair
    (0,1) x (1,2) fails, the run still returns, the other three blocks hold
    the values of the service, and the failed block holds 0: the matrix is
    the very matrix returned when that request succeeds with a distance
    of zero.  The module-level function leaves NaN in that block. *)
Theorem failed_block_reads_as_zero :
  snd (Resumable.calculate_distances (api_fail_at (0, 1) (1, 2)) 2 1 fresh)
  = inr (num_rows [[0; 0]; [11; 0]])
  /\ snd (Resumable.calculate_distances (api_zero_at (0, 1) (1, 2)) 2 1 fresh)
     = inr (num_rows [[0; 0]; [11; 0]])
  /\ snd (Resumable.calculate_distances api_ok 2 1 fresh)
     = inr (num_rows [[0; 2]; [11; 0]])
  /\ fst (Windowed.calculate_distances_with 1
            (fun o d => match api_fail_at (0, 1) (1, 2) o d with
                        | Some b => Windowed.Distances b
                        | None => Windowed.RequestException
                        end) 2)
     = inr [[Num 0; NaN]; [Num 11; Num 0]].
Proof. repeat split; vm_compute; reflexivity. Qed.

(** C8, as stated: every non-positive batch size would be rejected.  A
    negative one is not: for three stations and batch size -1 the batch
    list is the single window (0,3). *)
Lemma negative_batch_size_accepted :
  ~ (forall n w, n < 0 \/ w <= 0 -> exists e, create_batches w n = inl e).
Proof.
  intros H. destruct (H 3 (-1)) as [e E]; [lia|].
  vm_compute in E. discriminate.
Qed.

(** C8, amended.  The batch-building step raises exactly for batch size 0
    (the error of [range] for a zero step), and the run then ends with an
    exception without having issued a request; a negative batch size
    raises nothing and gives the single window from 0 to the station
    count; a positive one always gives a batch list.  A negative station
    count cannot occur: it is the row count of the table. *)
Theorem create_batches_error_cases (n : nat) (p : positive)
        (api : client) (w : world) :
  create_batches 0 (Z.of_nat n) = inl ValueError
  /\ create_batches (Z.neg p) (Z.of_nat n) = inr [(0, Z.of_nat n)]
  /\ (exists ws, create_batches (Z.pos p) (Z.of_nat n) = inr ws)
  /\ (exists e, Resumable.calculate_distances api n 0 w = (w, inl e))
  /\ Basic.calculate_distances api n 0 = inl ValueError.
Proof.
  split; [reflexivity|].
  split; [apply create_batches_negative|].
  split; [apply create_batches_positive|].
  split; [|reflexivity].
  unfold Resumable.calculate_distances, Resumable.prepare.
  destruct (Resumable.load_progress (progress_file w)) as [e|[loaded ps]].
  - now exists e.
  - rewrite create_batches_zero_step. now exists ValueError.
Qed.

Lemma rerun_of_completed_snapshot_witness :
  Resumable.calculate_distances (api_fail_at (0, 2) (0, 2)) 3 2
    (restart (fst (Resumable.calculate_distances api_ok 3 2 fresh)))
  = (restart (fst (Resumable.calculate_distances api_ok 3 2 fresh)),
     inr (num_rows [[0; 2; 3]; [11; 0; 13]; [21; 22; 0]]))
  /\ calls
       (trace
          (fst (Resumable.calculate_distances (api_fail_at (0, 2) (0, 2)) 3 2
                  (restart
                     (fst (Resumable.calculate_distances api_ok 3 2 fresh))))))
     = [].
Proof.
  apply (rerun_of_completed_snapshot api_ok (api_fail_at (0, 2) (0, 2))
           3 2 fresh _ _ [(0, 2); (2, 3)]).
  - vm_compute. reflexivity.
  - vm_compute. reflexivity.
  - intros o [<-|[<-|[]]]; vm_compute; reflexivity.
Defined.

Lemma processed_list_grows_per_success_witness :
  stored_batches
    (progress_file
       (Resumable.st_world
          (Resumable.origin_step api_ok [(0, 2); (2, 3)]
             (zeros 3, [], fresh) (0, 2))))
  = [(0, 2); (0, 2)]
  /\ occurrences (0, 2)
       (stored_batches
          (progress_file
             (Resumable.st_world
                (Resumable.origin_step api_ok [(0, 2); (2, 3)]
                   (zeros 3, [], fresh) (0, 2)))))
     = 2%nat.
Proof.
  destruct (processed_list_grows_per_success api_ok [(0, 2); (2, 3)]
              (zeros 3, [], fresh) (0, 2) eq_refl
              ltac:(discriminate)) as (H1 & H2 & _).
  split; [exact H1 | exact H2].
Defined.

(** ** Extracting coordinates *)

Lemma py_range_unit (s e : Z) :
  py_range s e 1
  = inr (map (fun k => s + Z.of_nat k * 1) (seq 0 (Z.to_nat (e - s)))).
Proof.
  unfold py_range, range_len. cbn [Z.eqb Z.ltb Z.compare].
  do 3 f_equal. destruct (Z.ltb_spec s e).
  - rewrite Z.div_1_r. lia.
  - lia.
Qed.

Lemma np_row_inside {A : Type} (data : list A) (i : Z) :
  0 <= i < Z.of_nat (length data) ->
  exists r, nth_error data (Z.to_nat i) = Some r /\ np_row data i = inr r.
Proof.
  intros H. unfold np_row.
  destruct (Z.ltb_spec i 0); [lia|].
  destruct (Z.leb_spec 0 i); [|lia].
  destruct (Z.ltb_spec i (Z.of_nat (length data))); [|lia].
  cbn [andb].
  destruct (nth_error data (Z.to_nat i)) as [r|] eqn:E.
  - now exists r.
  - apply nth_error_None in E. lia.
Qed.

Lemma np_row_outside {A : Type} (data : list A) (i : Z) :
  Z.of_nat (length data) <= i -> np_row data i = inl IndexError.
Proof.
  intros H. unfold np_row.
  destruct (Z.ltb_spec i 0); [lia|].
  destruct (Z.ltb_spec i (Z.of_nat (length data))); [lia|].
  now rewrite andb_false_r.
Qed.

Lemma skipn_cons_nth {A : Type} (l : list A) (k : nat) (r : A) :
  nth_error l k = Some r -> skipn k l = r :: skipn (S k) l.
Proof.
  revert k. induction l as [|x l IH]; intros [|k] H; try discriminate.
  - now injection H as ->.
  - cbn in H. now apply IH.
Qed.

Lemma collect_rows {B : Type} (g : station -> B) (data : list station)
      (len : nat) (s : Z) :
  0 <= s -> s + Z.of_nat len <= Z.of_nat (length data) ->
  collect (fun i => match np_row data i with
                    | inl e => inl e
                    | inr r => inr (g r)
                    end)
          (map (fun k => s + Z.of_nat k * 1) (seq 0 len))
  = inr (map g (firstn len (skipn (Z.to_nat s) data))).
Proof.
  revert s. induction len as [|len IH]; intros s Hs Hn; [reflexivity|].
  rewrite <- cons_seq, <- seq_shift. cbn [map collect]. rewrite map_map.
  replace (s + Z.of_nat 0 * 1) with s by lia.
  destruct (np_row_inside data s ltac:(lia)) as (r & Hr & ->).
  rewrite (map_ext _ (fun k => (s + 1) + Z.of_nat k * 1)) by (intros; lia).
  rewrite IH by lia.
  rewrite (skipn_cons_nth _ _ _ Hr). cbn [firstn map].
  replace (Z.to_nat (s + 1)) with (S (Z.to_nat s)) by lia. reflexivity.
Qed.

Lemma extract_overrun (data : list station) (len : nat) (s : Z) :
  0 <= s -> (0 < len)%nat -> Z.of_nat (length data) < s + Z.of_nat len ->
  collect (fun i => match np_row data i with
                    | inl e => inl e
                    | inr r => inr (lon_lat r)
                    end)
          (map (fun k => s + Z.of_nat k * 1) (seq 0 len))
  = inl IndexError.
Proof.
  revert s. induction len as [|len IH]; intros s Hs Hlen Hn; [lia|].
  rewrite <- cons_seq, <- seq_shift. cbn [map collect]. rewrite map_map.
  replace (s + Z.of_nat 0 * 1) with s by lia.
  destruct (Z.lt_ge_cases s (Z.of_nat (length data))) as [Hin|Hout].
  - destruct (np_row_inside data s ltac:(lia)) as (r & _ & ->).
    rewrite (map_ext _ (fun k => (s + 1) + Z.of_nat k * 1)) by (intros; lia).
    rewrite IH; [reflexivity|lia|lia|lia].
  - now rewrite np_row_outside.
Qed.

Lemma extract_coordinates_slice (data : list station) (s e : Z) :
  0 <= s -> e <= Z.of_nat (length data) ->
  extract_coordinates data s e = inr (map lon_lat (slice data s e))
  /\ Z.of_nat (length (slice data s e)) = Z.max 0 (e - s).
Proof.
  intros Hs He. unfold extract_coordinates, slice.
  rewrite py_range_unit. split.
  - destruct (Z.le_gt_cases e s) as [Hempty|Hlt].
    + replace (Z.to_nat (e - s)) with 0%nat by lia. reflexivity.
    + apply (collect_rows lon_lat); lia.
  - rewrite length_firstn, length_skipn. lia.
Qed.

(** X1. For a range inside the table, [extract_coordinates] returns one
    [[lon, lat]] pair per row of the range, in table order (so
    [end - start] pairs); an empty or reversed range gives the empty
    list. *)
Theorem extract_coordinates_in_range (data : list station) (s e : Z) :
  0 <= s -> e <= Z.of_nat (length data) ->
  exists cs,
    extract_coordinates data s e = inr cs
    /\ cs = map lon_lat (slice data s e)
    /\ length cs = Z.to_nat (e - s).
Proof.
  intros Hs He.
  destruct (extract_coordinates_slice data s e Hs He) as [E L].
  eexists. split; [exact E|]. split; [reflexivity|].
  rewrite length_map. lia.
Qed.

Lemma extract_coordinates_in_range_witness :
  extract_coordinates
    [ {| station_id := 7; station_lat := 52; station_lon := 13 |};
      {| station_id := 8; station_lat := 48; station_lon := 11 |};
      {| station_id := 9; station_lat := 50; station_lon := 8 |} ] 1 3
  = inr [[11; 48]; [8; 50]].
Proof.
  destruct (extract_coordinates_in_range
              [ {| station_id := 7; station_lat := 52; station_lon := 13 |};
                {| station_id := 8; station_lat := 48; station_lon := 11 |};
                {| station_id := 9; station_lat := 50; station_lon := 8 |} ]
              1 3 ltac:(lia) ltac:(cbn; lia)) as (cs & E & -> & _).
  exact E.
Defined.

(** X2. A non-empty range that starts at a non-negative index and ends
    beyond the last row makes [extract_coordinates] raise IndexError. *)
Theorem extract_coordinates_out_of_range (data : list station) (s e : Z) :
  0 <= s -> s < e -> Z.of_nat (length data) < e ->
  extract_coordinates data s e = inl IndexError.
Proof.
  intros Hs Hse He. unfold extract_coordinates. rewrite py_range_unit.
  apply extract_overrun; lia.
Qed.

Lemma extract_coordinates_out_of_range_witness :
  extract_coordinates
    [ {| station_id := 7; station_lat := 52; station_lon := 13 |} ] 0 2
  = inl IndexError.
Proof.
  apply extract_coordinates_out_of_range; cbn; lia.
Defined.

(** ** The batch list is ordered, whatever the batch size *)

Lemma chained_ascending (a b : Z) (ws : list window) :
  chained a ws b -> (forall x, In x ws -> fst x <= snd x) -> ascending a ws.
Proof.
  revert a. induction ws as [|x ws IH]; intros a Hc Hlen; [exact I|].
  destruct Hc as [Hx Hc]. cbn [ascending]. repeat split.
  - lia.
  - apply Hlen. now left.
  - apply IH; [exact Hc|]. intros y Hy. apply Hlen. now right.
Qed.

Lemma create_batches_ordered (w : Z) (n : nat) (ws : list window) :
  create_batches w (Z.of_nat n) = inr ws ->
  chained 0 ws (Z.of_nat n) /\ ascending 0 ws.
Proof.
  intros H. destruct w as [|p|p].
  - rewrite create_batches_zero_step in H. discriminate.
  - destruct n as [|n'].
    + cbn [Z.of_nat] in H. rewrite create_batches_no_stations in H.
      injection H as <-. cbn. lia.
    + destruct (create_batches_partition (Z.pos p) (Z.of_nat (S n'))
                  ltac:(lia) ltac:(lia))
        as (ws' & E & _ & Hc & _ & _ & Hpos & _).
      rewrite E in H. injection H as <-. split; [exact Hc|].
      apply (chained_ascending _ _ _ Hc).
      intros x Hx. specialize (Hpos x Hx). unfold win_len in Hpos. lia.
  - rewrite create_batches_negative in H. injection H as <-. cbn. lia.
Qed.

Lemma ascending_bounds (lo hi : Z) (ws : list window) :
  ascending lo ws -> chained lo ws hi ->
  lo <= hi /\ forall x, In x ws -> lo <= fst x /\ snd x <= hi.
Proof.
  revert lo. induction ws as [|x ws IH]; intros lo Ha Hc.
  - cbn in Hc. split; [lia|]. intros x [].
  - destruct Ha as (H1 & H2 & Ha). destruct Hc as [Hx Hc].
    destruct (IH _ Ha Hc) as [Hle Hall]. split; [lia|].
    intros y [<-|Hy]; [lia|]. specialize (Hall y Hy). lia.
Qed.

Lemma ascending_from (lo : Z) (ws : list window) :
  ascending lo ws -> forall x, In x ws -> lo <= fst x /\ fst x <= snd x.
Proof.
  revert lo. induction ws as [|x ws IH]; intros lo Ha y Hy; [destruct Hy|].
  destruct Ha as (H1 & H2 & Ha). destruct Hy as [<-|Hy]; [lia|].
  specialize (IH _ Ha y Hy). lia.
Qed.

(** In an ascending list a covered index is covered by one entry only. *)
Lemma ascending_unique (lo : Z) (ws : list window) (x : window) (i : Z) :
  ascending lo ws -> In x ws -> in_window x i = true ->
  exists l1 l2,
    ws = l1 ++ x :: l2
    /\ (forall y, In y l1 -> in_window y i = false)
    /\ (forall y, In y l2 -> in_window y i = false).
Proof.
  revert lo. induction ws as [|y ws IH]; intros lo Ha Hx Hi; [destruct Hx|].
  destruct Ha as (H1 & H2 & Ha).
  assert (Hlater : in_window y i = true ->
                   forall z, In z ws -> in_window z i = false).
  { intros Hy z Hz. pose proof (ascending_from _ _ Ha z Hz).
    unfold in_window in *. apply andb_true_iff in Hy as [_ Hy].
    apply Z.ltb_lt in Hy. apply andb_false_iff. left. apply Z.leb_gt. lia. }
  destruct (in_window y i) eqn:Hy.
  - assert (x = y) as ->.
    { destruct Hx as [->|Hx]; [reflexivity|].
      rewrite (Hlater eq_refl x Hx) in Hi. discriminate. }
    exists [], ws. repeat split; [intros z []|now apply Hlater].
  - destruct Hx as [->|Hx]; [congruence|].
    destruct (IH _ Ha Hx Hi) as (l1 & l2 & -> & Hb & Hc).
    exists (y :: l1), l2. repeat split; [|exact Hc].
    intros z [<-|Hz]; [exact Hy|now apply Hb].
Qed.

(** ** Batches and coordinates together *)

Lemma slice_app {A : Type} (l : list A) (a b c : Z) :
  0 <= a -> a <= b -> b <= c ->
  slice l a c = slice l a b ++ slice l b c.
Proof.
  intros Ha Hab Hbc. unfold slice.
  replace (Z.to_nat (c - a)) with (Z.to_nat (b - a) + Z.to_nat (c - b))%nat
    by lia.
  replace (Z.to_nat b) with (Z.to_nat (b - a) + Z.to_nat a)%nat by lia.
  rewrite <- skipn_skipn.
  generalize (skipn (Z.to_nat a) l) as l'.
  generalize (Z.to_nat (c - b)) as y. generalize (Z.to_nat (b - a)) as x.
  induction x as [|x IH]; intros y l'; [reflexivity|].
  destruct l' as [|h l']; cbn [Nat.add firstn skipn app].
  - now rewrite firstn_nil.
  - now rewrite IH.
Qed.

Lemma extract_chain (data : list station) (ws : list window) (a b : Z) :
  ascending a ws -> chained a ws b -> 0 <= a ->
  b <= Z.of_nat (length data) ->
  collect (fun x => extract_coordinates data (fst x) (snd x)) ws
  = inr (map (fun x => map lon_lat (slice data (fst x) (snd x))) ws)
  /\ concat (map (fun x => map lon_lat (slice data (fst x) (snd x))) ws)
     = map lon_lat (slice data a b).
Proof.
  revert a. induction ws as [|x ws IH]; intros a Ha Hc H0 Hb.
  - cbn in Hc. subst b. split; [reflexivity|]. unfold slice.
    now rewrite Z.sub_diag.
  - destruct Ha as (H1 & H2 & Ha). destruct Hc as [Hx Hc].
    destruct (ascending_bounds _ _ _ Ha Hc) as [Hle _].
    destruct (IH _ Ha Hc ltac:(lia) Hb) as [E1 E2].
    cbn [collect map concat].
    destruct (extract_coordinates_slice data (fst x) (snd x)
                ltac:(lia) ltac:(lia)) as [-> _].
    rewrite E1, E2. split; [reflexivity|].
    rewrite <- map_app. f_equal. subst a. symmetry.
    apply slice_app; lia.
Qed.

Lemma slice_all {A : Type} (l : list A) :
  slice l 0 (Z.of_nat (length l)) = l.
Proof.
  unfold slice. cbn [Z.to_nat skipn]. rewrite Z.sub_0_r, Nat2Z.id.
  apply firstn_all.
Qed.

(** X3. Whenever the batch list is built for the table (any non-zero batch
    size, any number of rows), [extract_coordinates] succeeds on every
    batch, and the coordinate lists of the batches, put one after the
    other, are the coordinates of the whole table, each row once and in
    table order. *)
Theorem batches_extract_whole_table
        (data : list station) (w : Z) (ws : list window) :
  create_batches w (Z.of_nat (length data)) = inr ws ->
  exists chunks,
    collect (fun x => extract_coordinates data (fst x) (snd x)) ws
    = inr chunks
    /\ concat chunks = map lon_lat data.
Proof.
  intros H. apply create_batches_ordered in H as [Hc Ha].
  destruct (extract_chain data ws 0 _ Ha Hc ltac:(lia) ltac:(lia))
    as [E1 E2].
  eexists. split; [exact E1|]. now rewrite E2, slice_all.
Qed.

Lemma batches_extract_whole_table_witness :
  exists chunks,
    collect (fun x =>
               extract_coordinates
                 [ {| station_id := 7; station_lat := 52; station_lon := 13 |};
                   {| station_id := 8; station_lat := 48; station_lon := 11 |};
                   {| station_id := 9; station_lat := 50; station_lon := 8 |} ]
                 (fst x) (snd x))
            [(0, 2); (2, 3)]
    = inr chunks
    /\ concat chunks = [[13; 52]; [11; 48]; [8; 50]].
Proof.
  apply (batches_extract_whole_table
           [ {| station_id := 7; station_lat := 52; station_lon := 13 |};
             {| station_id := 8; station_lat := 48; station_lon := 11 |};
             {| station_id := 9; station_lat := 50; station_lon := 8 |} ]
           2 [(0, 2); (2, 3)]).
  reflexivity.
Defined.

(** ** Reading cells of a matrix that requests have written *)

Lemma nth_error_imap {A B : Type} (f : Z -> A -> B) (s : Z) (l : list A)
      (k : nat) :
  nth_error (imap f s l) k
  = option_map (f (s + Z.of_nat k)) (nth_error l k).
Proof.
  revert s k. induction l as [|x l IH]; intros s [|k]; cbn [imap nth_error];
    try reflexivity.
  - cbn. now rewrite Z.add_0_r.
  - rewrite IH. do 2 f_equal. lia.
Qed.

Lemma length_imap {A B : Type} (f : Z -> A -> B) (s : Z) (l : list A) :
  length (imap f s l) = length l.
Proof.
  revert s. induction l as [|x l IH]; intros s; cbn; [reflexivity|].
  now rewrite IH.
Qed.

Lemma Forall_imap {A : Type} (P : A -> Prop) (f : Z -> A -> A) (s : Z)
      (l : list A) :
  (forall i x, P x -> P (f i x)) -> Forall P l -> Forall P (imap f s l).
Proof.
  intros Hf H. revert s. induction H as [|x l Hx H IH]; intros s; cbn [imap];
    constructor; auto.
Qed.

Lemma cell_at_assign (m : matrix) (o d : window) (b : block) (i j : nat) :
  cell_at (assign_block m o d b) i j
  = option_map
      (fun c => if in_window o (Z.of_nat i) && in_window d (Z.of_nat j)
                then b (Z.of_nat i - fst o) (Z.of_nat j - fst d)
                else c)
      (cell_at m i j).
Proof.
  unfold cell_at, assign_block. rewrite nth_error_imap. cbn [Z.add].
  destruct (nth_error m i) as [row|]; [|reflexivity]. cbn [option_map].
  destruct (in_window o (Z.of_nat i)); cbn [andb].
  - rewrite nth_error_imap. cbn [Z.add]. reflexivity.
  - now destruct (nth_error row j).
Qed.

Lemma assign_block_shape (m : matrix) (o d : window) (b : block)
      (rows cols : nat) :
  has_shape m rows cols -> has_shape (assign_block m o d b) rows cols.
Proof.
  intros [Hr Hc]. unfold assign_block. split; [now rewrite length_imap|].
  apply Forall_imap; [|exact Hc].
  intros i row Hrow.
  destruct (in_window o i); [now rewrite length_imap|exact Hrow].
Qed.

Lemma full_shape (rows cols : nat) (c : cell) :
  has_shape (full rows cols c) rows cols.
Proof.
  unfold full. split; [apply repeat_length|].
  apply Forall_forall. intros row Hrow. apply repeat_spec in Hrow.
  subst row. apply repeat_length.
Qed.

Lemma cell_at_full (rows cols : nat) (c : cell) (i j : nat) :
  (i < rows)%nat -> (j < cols)%nat ->
  cell_at (full rows cols c) i j = Some c.
Proof.
  intros Hi Hj. unfold cell_at, full.
  rewrite nth_error_repeat by assumption. now apply nth_error_repeat.
Qed.

Lemma cell_at_write (api : client) (o d : window) (m : matrix) (i j : nat) :
  cell_at (write api o m d) i j
  = option_map
      (fun c => if in_window o (Z.of_nat i) && in_window d (Z.of_nat j)
                then match api o d with
                     | Some b => b (Z.of_nat i - fst o) (Z.of_nat j - fst d)
                     | None => c
                     end
                else c)
      (cell_at m i j).
Proof.
  unfold write. destruct (api o d) as [b|].
  - apply cell_at_assign.
  - destruct (cell_at m i j) as [c|]; [|reflexivity]. cbn.
    now destruct (in_window o (Z.of_nat i) && in_window d (Z.of_nat j)).
Qed.

Lemma writes_untouched (api : client) (o : window) (ds : list window)
      (m : matrix) (i j : nat) :
  in_window o (Z.of_nat i) = false
  \/ (forall d, In d ds -> in_window d (Z.of_nat j) = false) ->
  cell_at (fold_left (write api o) ds m) i j = cell_at m i j.
Proof.
  revert m. induction ds as [|d ds IH]; intros m H; [reflexivity|].
  cbn [fold_left]. rewrite IH.
  - rewrite cell_at_write. destruct (cell_at m i j) as [c|]; [|reflexivity].
    cbn [option_map]. destruct H as [H|H].
    + now rewrite H.
    + rewrite (H d (or_introl eq_refl)). now rewrite andb_false_r.
  - destruct H as [H|H]; [now left|]. right. intros d' Hd'. apply H.
    now right.
Qed.

Lemma writes_hit (api : client) (o d : window) (k1 k2 : list window)
      (m : matrix) (i j : nat) :
  in_window o (Z.of_nat i) = true -> in_window d (Z.of_nat j) = true ->
  (forall x, In x k1 -> in_window x (Z.of_nat j) = false) ->
  (forall x, In x k2 -> in_window x (Z.of_nat j) = false) ->
  cell_at (fold_left (write api o) (k1 ++ d :: k2) m) i j
  = option_map
      (fun c => match api o d with
                | Some b => b (Z.of_nat i - fst o) (Z.of_nat j - fst d)
                | None => c
                end)
      (cell_at m i j).
Proof.
  intros Ho Hd H1 H2. rewrite fold_left_app. cbn [fold_left].
  rewrite writes_untouched by now right.
  rewrite cell_at_write, Ho, Hd. cbn [andb].
  now rewrite writes_untouched by now right.
Qed.

Lemma fill_untouched (api : client) (os ds : list window) (m : matrix)
      (i j : nat) :
  (forall o, In o os -> in_window o (Z.of_nat i) = false) ->
  cell_at (fill api os ds m) i j = cell_at m i j.
Proof.
  unfold fill. revert m. induction os as [|o os IH]; intros m H;
    [reflexivity|].
  cbn [fold_left]. rewrite IH by (intros o' Ho'; apply H; now right).
  apply writes_untouched. left. apply H. now left.
Qed.

(** The cell of a covered position after all requests. *)
Lemma fill_cell_general (api : client) (lo lo' : Z) (os ds : list window)
      (m : matrix) (o d : window) (i j : nat) :
  ascending lo os -> ascending lo' ds -> In o os -> In d ds ->
  in_window o (Z.of_nat i) = true -> in_window d (Z.of_nat j) = true ->
  cell_at (fill api os ds m) i j
  = option_map
      (fun c => match api o d with
                | Some b => b (Z.of_nat i - fst o) (Z.of_nat j - fst d)
                | None => c
                end)
      (cell_at m i j).
Proof.
  intros Ha Ha' Ho Hd Hi Hj.
  destruct (ascending_unique _ _ _ _ Ha Ho Hi) as (l1 & l2 & E1 & A1 & A2).
  destruct (ascending_unique _ _ _ _ Ha' Hd Hj) as (k1 & k2 & E2 & B1 & B2).
  unfold fill. rewrite E1. rewrite fold_left_app. cbn [fold_left].
  change (fold_left (fun m' o0 => fold_left (write api o0) ds m') l2 ?x)
    with (fill api l2 ds x).
  rewrite fill_untouched by exact A2.
  rewrite E2 at 1. rewrite writes_hit by assumption.
  change (fold_left (fun m' o0 => fold_left (write api o0) ds m') l1 m)
    with (fill api l1 ds m).
  now rewrite fill_untouched by exact A1.
Qed.

Lemma fill_cell (api : client) (lo : Z) (ws : list window) (m : matrix)
      (o d : window) (i j : nat) :
  ascending lo ws -> In o ws -> In d ws ->
  in_window o (Z.of_nat i) = true -> in_window d (Z.of_nat j) = true ->
  cell_at (fill api ws ws m) i j
  = option_map
      (fun c => match api o d with
                | Some b => b (Z.of_nat i - fst o) (Z.of_nat j - fst d)
                | None => c
                end)
      (cell_at m i j).
Proof. intros Ha. now apply (fill_cell_general api lo lo). Qed.

Lemma fill_shape (api : client) (os ds : list window) (m : matrix)
      (rows cols : nat) :
  has_shape m rows cols -> has_shape (fill api os ds m) rows cols.
Proof.
  unfold fill. revert m. induction os as [|o os IH]; intros m H; [exact H|].
  cbn [fold_left]. apply IH. clear IH.
  revert m H. induction ds as [|d ds IH]; intros m H; [exact H|].
  cbn [fold_left]. apply IH. unfold write.
  destruct (api o d); [now apply assign_block_shape|exact H].
Qed.

(** ** The windows of the module-level function *)

Lemma stride_windows_closed_form (w n : Z) :
  0 < w -> 1 <= n ->
  stride_windows w n
  = inr (map (nth_window w n) (seq 0 (S (Z.to_nat ((n - 1) / w))))).
Proof.
  intros Hw Hn. unfold stride_windows, py_range.
  destruct (Z.eqb_spec w 0); [lia|].
  assert (Hlen : range_len 0 n w = (n - 1) / w + 1).
  { unfold range_len. destruct (Z.ltb_spec 0 w); [|lia].
    destruct (Z.ltb_spec 0 n); [|lia]. now rewrite Z.sub_0_r. }
  rewrite Hlen, map_map.
  assert (0 <= (n - 1) / w) by (apply Z.div_pos; lia).
  replace (Z.to_nat ((n - 1) / w + 1)) with (S (Z.to_nat ((n - 1) / w)))
    by lia.
  apply f_equal. apply map_ext. intros k. unfold nth_window.
  apply f_equal2; [lia|]. f_equal. lia.
Qed.

Lemma stride_windows_ordered (w : Z) (n : nat) :
  0 < w ->
  exists ws, stride_windows w (Z.of_nat n) = inr ws
             /\ chained 0 ws (Z.of_nat n) /\ ascending 0 ws.
Proof.
  intros Hw. destruct n as [|n'].
  - exists []. unfold stride_windows, py_range, range_len.
    destruct (Z.eqb_spec w 0); [lia|].
    destruct (Z.ltb_spec 0 w); [|lia]. cbn. repeat split; reflexivity.
  - assert (Hn : 1 <= Z.of_nat (S n')) by lia.
    destruct (create_batches_ordered w (S n')
                (map (nth_window w (Z.of_nat (S n')))
                     (seq 0 (S (Z.to_nat ((Z.of_nat (S n') - 1) / w))))))
      as [Hc Ha].
    { now apply create_batches_windows. }
    eexists. split; [now apply stride_windows_closed_form|]. now split.
Qed.

(** X4. For a positive window size and at least one station the
    module-level function walks through exactly the windows of the class's
    batch list; with no station it walks through none, while the class
    has the one window (0,0). *)
Theorem stride_windows_are_batches (w n : Z) :
  0 < w -> 1 <= n ->
  stride_windows w n = create_batches w n
  /\ stride_windows w 0 = inr []
  /\ create_batches w 0 = inr [(0, 0)].
Proof.
  intros Hw Hn. split; [|split].
  - rewrite stride_windows_closed_form, create_batches_windows by assumption.
    reflexivity.
  - unfold stride_windows, py_range, range_len.
    destruct (Z.eqb_spec w 0); [lia|].
    destruct (Z.ltb_spec 0 w); [|lia]. reflexivity.
  - destruct w as [|p|p]; try lia. apply create_batches_no_stations.
Qed.

Lemma stride_windows_are_batches_witness :
  stride_windows 80 200 = create_batches 80 200
  /\ stride_windows 80 0 = inr []
  /\ create_batches 80 0 = inr [(0, 0)].
Proof. apply stride_windows_are_batches; lia. Defined.

(** ** The earlier class: matrix and trace of a run *)

Lemma basic_requests (api : client) (o : window) (ds : list window)
      (st : Basic.loop_state) :
  fold_left (Basic.request_step api o) ds st
  = (fold_left (write api o) ds (fst st),
     snd st ++ flat_map (basic_chunk api o) ds).
Proof.
  revert st. induction ds as [|d ds IH]; intros [m t].
  - cbn. now rewrite app_nil_r.
  - cbn [fold_left flat_map]. rewrite IH.
    unfold Basic.request_step, write, basic_chunk. cbn [fst snd].
    destruct (api o d); cbn [fst snd]; f_equal;
      rewrite <- !app_assoc; reflexivity.
Qed.

Lemma basic_origins (api : client) (os ds : list window)
      (st : Basic.loop_state) :
  fold_left (Basic.origin_step api ds) os st
  = (fill api os ds (fst st),
     snd st ++ flat_map (fun o => flat_map (basic_chunk api o) ds) os).
Proof.
  unfold fill. revert st. induction os as [|o os IH]; intros [m t].
  - cbn. now rewrite app_nil_r.
  - cbn [fold_left flat_map]. unfold Basic.origin_step at 2.
    rewrite basic_requests, IH. cbn [fst snd]. now rewrite <- app_assoc.
Qed.

Lemma calls_basic_chunks (api : client) (o : window) (ds : list window) :
  calls (flat_map (basic_chunk api o) ds) = map (Call o) ds.
Proof.
  unfold calls. induction ds as [|d ds IH]; [reflexivity|].
  cbn [flat_map map]. rewrite filter_app, IH. unfold basic_chunk.
  destruct (api o d); reflexivity.
Qed.

Lemma sleeps_basic_chunks (api : client) (o : window) (ds : list window) :
  length (filter is_sleep (flat_map (basic_chunk api o) ds))
  = successes api o ds.
Proof.
  unfold successes. induction ds as [|d ds IH]; [reflexivity|].
  cbn [flat_map filter]. rewrite filter_app, length_app, IH.
  unfold basic_chunk. destruct (api o d); reflexivity.
Qed.

(** X5. The earlier class, for any batch size that builds a batch list:
    the run issues exactly one request per ordered pair of windows, origin
    by origin and destination by destination, and waits exactly once per
    successful request. *)
Theorem basic_run_requests_every_pair
        (api : client) (n : nat) (w : Z) (ws : list window) :
  create_batches w (Z.of_nat n) = inr ws ->
  exists m t,
    Basic.calculate_distances api n w = inr (m, t)
    /\ calls t = window_pairs ws
    /\ length (calls t) = (length ws * length ws)%nat
    /\ length (filter is_sleep t) = all_successes api ws ws.
Proof.
  intros H. unfold Basic.calculate_distances. rewrite H.
  rewrite basic_origins. cbn [fst snd app].
  do 2 eexists. split; [reflexivity|].
  assert (Hcalls : forall os,
             calls (flat_map (fun o => flat_map (basic_chunk api o) ws) os)
             = flat_map (fun o => map (Call o) ws) os).
  { induction os as [|o os IH]; [reflexivity|].
    cbn [flat_map]. unfold calls in *. rewrite filter_app, IH.
    f_equal. apply calls_basic_chunks. }
  split; [apply Hcalls|]. split.
  - rewrite Hcalls, length_flat_map.
    rewrite (map_ext _ (fun _ => length ws)) by (intros; apply length_map).
    assert (Hsum : forall (l : list window) k,
               list_sum (map (fun _ => k) l) = (length l * k)%nat).
    { induction l as [|x xs IH]; intros k; [reflexivity|].
      cbn [map length].
      change (list_sum (k :: map (fun _ => k) xs))
        with (k + list_sum (map (fun _ => k) xs))%nat.
      rewrite IH. lia. }
    apply Hsum.
  - unfold all_successes.
    enough (Hs : forall os,
               length (filter is_sleep
                         (flat_map (fun o => flat_map (basic_chunk api o) ws)
                                   os))
               = list_sum (map (fun o => successes api o ws) os))
      by apply Hs.
    induction os as [|o os IH]; [reflexivity|].
    cbn [flat_map map].
    change (list_sum (successes api o ws
                      :: map (fun o0 => successes api o0 ws) os))
      with (successes api o ws
            + list_sum (map (fun o0 => successes api o0 ws) os))%nat.
    rewrite filter_app, length_app, IH.
    now rewrite sleeps_basic_chunks.
Qed.

Lemma basic_run_requests_every_pair_witness :
  exists m t,
    Basic.calculate_distances (api_fail_at (0, 2) (2, 3)) 3 2 = inr (m, t)
    /\ calls t = window_pairs [(0, 2); (2, 3)]
    /\ length (calls t) = 4%nat
    /\ length (filter is_sleep t) = 3%nat.
Proof.
  apply (basic_run_requests_every_pair (api_fail_at (0, 2) (2, 3)) 3 2
           [(0, 2); (2, 3)]).
  reflexivity.
Defined.

Lemma covered_inside (ws : list window) (n : nat) (x : window) (i : nat) :
  chained 0 ws (Z.of_nat n) -> ascending 0 ws -> In x ws ->
  in_window x (Z.of_nat i) = true -> (i < n)%nat.
Proof.
  intros Hc Ha Hx Hi.
  destruct (ascending_bounds _ _ _ Ha Hc) as [_ Hall].
  specialize (Hall x Hx). unfold in_window in Hi.
  apply andb_true_iff in Hi as [_ Hi]. apply Z.ltb_lt in Hi. lia.
Qed.

(** X6. The earlier class, for any batch size that builds a batch list:
    the returned matrix has n rows of n cells, and for every pair of
    windows (o, d) and every cell of the block o x d, the cell holds the
    value the service returned for that position when the request for
    (o, d) succeeded, and 0.0 (the initial fill) when it failed. *)
Theorem basic_run_cells
        (api : client) (n : nat) (w : Z) (ws : list window)
        (m : matrix) (t : list event) (o d : window) (i j : nat) :
  create_batches w (Z.of_nat n) = inr ws ->
  Basic.calculate_distances api n w = inr (m, t) ->
  In o ws -> In d ws ->
  in_window o (Z.of_nat i) = true -> in_window d (Z.of_nat j) = true ->
  has_shape m n n
  /\ cell_at m i j
     = Some (match api o d with
             | Some b => b (Z.of_nat i - fst o) (Z.of_nat j - fst d)
             | None => Num 0
             end).
Proof.
  intros Hws Hrun Ho Hd Hi Hj.
  unfold Basic.calculate_distances in Hrun. rewrite Hws in Hrun.
  rewrite basic_origins in Hrun. cbn [fst snd] in Hrun.
  injection Hrun as <- _.
  destruct (create_batches_ordered _ _ _ Hws) as [Hc Ha].
  split; [apply fill_shape, full_shape|].
  rewrite (fill_cell api 0 ws _ o d i j Ha Ho Hd Hi Hj).
  unfold zeros. rewrite cell_at_full.
  - reflexivity.
  - exact (covered_inside ws n o i Hc Ha Ho Hi).
  - exact (covered_inside ws n d j Hc Ha Hd Hj).
Qed.

Lemma basic_run_cells_witness :
  cell_at (num_rows [[0; 2; 0]; [11; 0; 0]; [21; 22; 0]]) 1 0 = Some (Num 11)
  /\ cell_at (num_rows [[0; 2; 0]; [11; 0; 0]; [21; 22; 0]]) 1 2
     = Some (Num 0).
Proof.
  split.
  - apply (basic_run_cells (api_fail_at (0, 2) (2, 3)) 3 2 [(0, 2); (2, 3)]
             (num_rows [[0; 2; 0]; [11; 0; 0]; [21; 22; 0]])
             [Call (0, 2) (0, 2); Sleep; Call (0, 2) (2, 3);
              Call (2, 3) (0, 2); Sleep; Call (2, 3) (2, 3); Sleep]
             (0, 2) (0, 2) 1 0);
      try reflexivity; cbn; tauto.
  - apply (basic_run_cells (api_fail_at (0, 2) (2, 3)) 3 2 [(0, 2); (2, 3)]
             (num_rows [[0; 2; 0]; [11; 0; 0]; [21; 22; 0]])
             [Call (0, 2) (0, 2); Sleep; Call (0, 2) (2, 3);
              Call (2, 3) (0, 2); Sleep; Call (2, 3) (2, 3); Sleep]
             (0, 2) (2, 3) 1 2);
      try reflexivity; cbn; tauto.
Defined.

(** ** The module-level function: matrix and trace of a run *)

Lemma windowed_request (svc : Windowed.service) (o d : window)
      (m : matrix) (t : list event) :
  never_raises svc ->
  Windowed.request_step svc o (inr m, t) d
  = (inr (write (as_client svc) o m d), t ++ windowed_chunk svc o d).
Proof.
  intros Hnr. unfold Windowed.request_step, write, as_client, windowed_chunk.
  cbn [fst snd]. pose proof (Hnr o d) as Hod.
  destruct (svc o d) as [|b| |e]; try (now exfalso; apply (Hod e));
    f_equal; rewrite <- ?app_assoc; reflexivity.
Qed.

Lemma windowed_requests (svc : Windowed.service) (o : window)
      (ds : list window) (m : matrix) (t : list event) :
  never_raises svc ->
  fold_left (Windowed.request_step svc o) ds (inr m, t)
  = (inr (fold_left (write (as_client svc) o) ds m),
     t ++ flat_map (windowed_chunk svc o) ds).
Proof.
  intros Hnr. revert m t. induction ds as [|d ds IH]; intros m t.
  - cbn. now rewrite app_nil_r.
  - cbn [fold_left flat_map]. rewrite windowed_request by assumption.
    rewrite IH. now rewrite <- app_assoc.
Qed.

Lemma windowed_origins (svc : Windowed.service) (os ds : list window)
      (m : matrix) (t : list event) :
  never_raises svc ->
  fold_left (Windowed.origin_step svc ds) os (inr m, t)
  = (inr (fill (as_client svc) os ds m),
     t ++ flat_map (fun o => flat_map (windowed_chunk svc o) ds) os).
Proof.
  intros Hnr. unfold fill. revert m t.
  induction os as [|o os IH]; intros m t.
  - cbn. now rewrite app_nil_r.
  - cbn [fold_left flat_map]. unfold Windowed.origin_step at 2.
    rewrite windowed_requests by assumption. rewrite IH.
    now rewrite <- app_assoc.
Qed.

Lemma calls_windowed_chunks (svc : Windowed.service) (ds os : list window) :
  calls (flat_map (fun o => flat_map (windowed_chunk svc o) ds) os)
  = flat_map (fun o => map (Call o) ds) os.
Proof.
  unfold calls. induction os as [|o os IH]; [reflexivity|].
  cbn [flat_map]. rewrite filter_app, IH. f_equal.
  clear IH. induction ds as [|d ds IH]; [reflexivity|].
  cbn [flat_map map]. rewrite filter_app, IH. unfold windowed_chunk.
  destruct (svc o d); reflexivity.
Qed.

(** X7. The module-level function, when no request raises anything but a
    RequestException: the run returns a matrix with n rows of n cells and
    has issued one request per ordered pair of windows; a cell of a block
    whose reply carried distances holds the value of that reply, and a
    cell of a block whose request failed, or whose reply had no
    'distances', is still NaN. *)
Theorem windowed_run_cells
        (svc : Windowed.service) (size : Z) (n : nat) :
  0 < size -> never_raises svc ->
  exists ws m t,
    stride_windows size (Z.of_nat n) = inr ws
    /\ Windowed.calculate_distances_with size svc n = (inr m, t)
    /\ has_shape m n n
    /\ calls t = window_pairs ws
    /\ forall o d i j,
         In o ws -> In d ws ->
         in_window o (Z.of_nat i) = true -> in_window d (Z.of_nat j) = true ->
         cell_at m i j
         = Some (match svc o d with
                 | Windowed.Distances b =>
                     b (Z.of_nat i - fst o) (Z.of_nat j - fst d)
                 | _ => NaN
                 end).
Proof.
  intros Hsize Hnr.
  destruct (stride_windows_ordered size n Hsize) as (ws & Hws & Hc & Ha).
  exists ws. unfold Windowed.calculate_distances_with. rewrite Hws.
  rewrite windowed_origins by assumption. cbn [app].
  do 2 eexists. split; [reflexivity|]. split; [reflexivity|].
  split; [apply fill_shape, full_shape|].
  split; [apply calls_windowed_chunks|].
  intros o d i j Ho Hd Hi Hj.
  rewrite (fill_cell (as_client svc) 0 ws _ o d i j Ha Ho Hd Hi Hj).
  rewrite cell_at_full.
  - unfold as_client. cbn [option_map]. now destruct (svc o d).
  - exact (covered_inside ws n o i Hc Ha Ho Hi).
  - exact (covered_inside ws n d j Hc Ha Hd Hj).
Qed.

Lemma windowed_run_cells_witness :
  exists ws m t,
    stride_windows WINDOW_SIZE 2 = inr ws
    /\ Windowed.calculate_distances
         (fun _ _ => Windowed.RequestException) 2 = (inr m, t)
    /\ has_shape m 2 2
    /\ calls t = window_pairs ws
    /\ forall o d i j,
         In o ws -> In d ws ->
         in_window o (Z.of_nat i) = true -> in_window d (Z.of_nat j) = true ->
         cell_at m i j = Some NaN.
Proof.
  apply (windowed_run_cells (fun _ _ => Windowed.RequestException)
           WINDOW_SIZE 2).
  - reflexivity.
  - intros o d e. discriminate.
Defined.

Lemma windowed_error_stays (svc : Windowed.service) (os ds : list window)
      (e : exn) (t : list event) :
  fold_left (Windowed.origin_step svc ds) os (inl e, t) = (inl e, t).
Proof.
  induction os as [|o os IH]; [reflexivity|].
  cbn [fold_left]. unfold Windowed.origin_step at 2.
  assert (E : fold_left (Windowed.request_step svc o) ds (inl e, t)
              = (inl e, t)).
  { clear. induction ds as [|d ds IH]; [reflexivity|].
    cbn [fold_left]. exact IH. }
  rewrite E. exact IH.
Qed.

Lemma windowed_requests_raise (svc : Windowed.service) (o d : window)
      (ds : list window) (e : exn) (st : Windowed.loop_state) :
  In d ds -> svc o d = Windowed.Raises e ->
  exists e' t, fold_left (Windowed.request_step svc o) ds st = (inl e', t).
Proof.
  intros Hd Hr. revert st. induction ds as [|d' ds IH]; intros st;
    [destruct Hd|].
  cbn [fold_left]. destruct Hd as [->|Hd]; [|now apply IH].
  assert (E : exists e' t, Windowed.request_step svc o st d = (inl e', t)).
  { unfold Windowed.request_step. destruct st as [[e0|m] t]; cbn [fst snd].
    - now exists e0, t.
    - rewrite Hr. now eexists _, _. }
  destruct E as (e' & t & ->).
  exists e', t. clear. induction ds as [|d' ds IH]; [reflexivity|].
  cbn [fold_left]. exact IH.
Qed.

Lemma windowed_origins_raise (svc : Windowed.service) (o d : window)
      (os ds : list window) (e : exn) (st : Windowed.loop_state) :
  In o os -> In d ds -> svc o d = Windowed.Raises e ->
  exists e' t, fold_left (Windowed.origin_step svc ds) os st = (inl e', t).
Proof.
  intros Ho Hd Hr. revert st. induction os as [|o' os IH]; intros st;
    [destruct Ho|].
  cbn [fold_left]. destruct Ho as [->|Ho]; [|now apply IH].
  unfold Windowed.origin_step at 2.
  destruct (windowed_requests_raise svc o d ds e st Hd Hr) as (e' & t & ->).
  exists e', t. apply windowed_error_stays.
Qed.

(** X8. The module-level function: when the request for some pair of
    windows of the run raises an exception that is not a
    RequestException, the run ends with an exception and returns no
    matrix. *)
Theorem windowed_uncaught_exception_aborts
        (svc : Windowed.service) (size : Z) (n : nat)
        (ws : list window) (o d : window) (e : exn) :
  stride_windows size (Z.of_nat n) = inr ws ->
  In o ws -> In d ws -> svc o d = Windowed.Raises e ->
  exists e', fst (Windowed.calculate_distances_with size svc n) = inl e'.
Proof.
  intros Hws Ho Hd Hr. unfold Windowed.calculate_distances_with.
  rewrite Hws.
  destruct (windowed_origins_raise svc o d ws ws e
              (inr (full n n NaN), []) Ho Hd Hr) as (e' & t & ->).
  now exists e'.
Qed.

Lemma windowed_uncaught_exception_aborts_witness :
  exists e',
    fst (Windowed.calculate_distances
           (fun _ _ => Windowed.Raises ValueError) 3) = inl e'.
Proof.
  apply (windowed_uncaught_exception_aborts
           (fun _ _ => Windowed.Raises ValueError) WINDOW_SIZE 3
           [(0, 3)] (0, 3) (0, 3) ValueError);
    try reflexivity; now left.
Defined.

(** ** The resumable class: matrix, list and trace of a run *)

Lemma already_processed_app (o : window) (p q : list window) :
  Resumable.already_processed o (p ++ q)
  = Resumable.already_processed o p || Resumable.already_processed o q.
Proof. unfold Resumable.already_processed. apply existsb_app. Qed.

Lemma already_processed_repeat (o o' : window) (k : nat) :
  o' <> o -> Resumable.already_processed o' (repeat o k) = false.
Proof.
  intros Hne. unfold Resumable.already_processed.
  induction k as [|k IH]; [reflexivity|]. cbn [repeat existsb].
  rewrite IH, orb_false_r. apply andb_false_iff.
  destruct (Z.eqb_spec (fst o') (fst o)) as [E1|]; [|now left].
  destruct (Z.eqb_spec (snd o') (snd o)) as [E2|]; [|now right].
  exfalso. apply Hne. destruct o, o'. cbn in *. congruence.
Qed.

Lemma requests_matrix (api : client) (o : window) (ds : list window)
      (st : Resumable.loop_state) :
  Resumable.st_matrix (fold_left (Resumable.request_step api o) ds st)
  = fold_left (write api o) ds (Resumable.st_matrix st).
Proof.
  revert st. induction ds as [|d ds IH]; intros st; [reflexivity|].
  cbn [fold_left]. rewrite IH. f_equal.
  unfold Resumable.request_step, write. now destruct (api o d).
Qed.

(** What the requests of one origin add to the trace. *)
Lemma requests_trace (api : client) (o : window) (ds : list window)
      (st : Resumable.loop_state) :
  exists ext,
    trace (Resumable.st_world (fold_left (Resumable.request_step api o) ds st))
    = trace (Resumable.st_world st) ++ ext
    /\ calls ext = map (Call o) ds
    /\ length (filter is_save ext) = length ds
    /\ length (filter is_sleep ext) = successes api o ds.
Proof.
  revert st. induction ds as [|d ds IH]; intros st.
  - exists []. cbn. now rewrite app_nil_r.
  - cbn [fold_left].
    destruct (IH (Resumable.request_step api o st d))
      as (ext & E & Hc & Hs & Hw).
    exists (Call o d
            :: Save (Resumable.st_matrix (Resumable.request_step api o st d))
                    (Resumable.st_processed
                       (Resumable.request_step api o st d))
            :: match api o d with Some _ => [Sleep] | None => [] end ++ ext).
    split; [|split; [|split]].
    + rewrite E. unfold Resumable.request_step.
      destruct (api o d); cbn; rewrite <- !app_assoc; reflexivity.
    + unfold calls in *. cbn [filter is_call map].
      destruct (api o d); cbn [app filter is_call]; now rewrite Hc.
    + cbn [filter is_save length].
      destruct (api o d); cbn [app filter is_save length]; now rewrite Hs.
    + unfold successes in *. cbn [filter is_sleep].
      destruct (api o d); cbn [app filter is_sleep length]; now rewrite Hw.
Qed.

(** What the origin loop adds to the trace, from any state. *)
Lemma origins_trace (api : client) (ds os : list window)
      (st : Resumable.loop_state) :
  exists ext p',
    trace (Resumable.st_world
             (fold_left (Resumable.origin_step api ds) os st))
    = trace (Resumable.st_world st) ++ ext
    /\ Resumable.st_processed
         (fold_left (Resumable.origin_step api ds) os st)
       = Resumable.st_processed st ++ p'
    /\ length (filter is_save ext) = length (calls ext)
    /\ forall o d,
         In (Call o d) ext ->
         In o os /\ In d ds
         /\ Resumable.already_processed o (Resumable.st_processed st) = false.
Proof.
  revert st. induction os as [|o os IH]; intros st.
  - exists [], []. cbn. rewrite !app_nil_r.
    split; [reflexivity|]. split; [reflexivity|]. split; [reflexivity|].
    intros o d [].
  - cbn [fold_left].
    destruct (IH (Resumable.origin_step api ds st o))
      as (ext & p' & E & Ep & Hs & Hin).
    unfold Resumable.origin_step in *.
    destruct (Resumable.already_processed o (Resumable.st_processed st))
      eqn:Hskip.
    + exists ext, p'.
      split; [exact E|]. split; [exact Ep|]. split; [exact Hs|].
      intros o' d' Hcall. destruct (Hin o' d' Hcall) as (H1 & H2 & H3).
      split; [now right|]. split; assumption.
    + destruct (requests_trace api o ds st) as (e1 & E1 & Hc1 & Hs1 & _).
      pose proof (requests_processed api o ds st) as Ep1.
      exists (e1 ++ ext), (repeat o (successes api o ds) ++ p').
      split; [now rewrite E, E1, app_assoc|].
      split; [now rewrite Ep, Ep1, app_assoc|].
      split.
      * unfold calls in *. rewrite !filter_app, !length_app, Hs, Hs1, Hc1.
        now rewrite length_map.
      * intros o' d' Hcall. apply in_app_or in Hcall as [Hcall|Hcall].
        -- assert (Hc : In (Call o' d') (calls e1))
             by (apply filter_In; split; [exact Hcall|reflexivity]).
           rewrite Hc1 in Hc. apply in_map_iff in Hc as (d0 & Heq & Hd0).
           injection Heq as <- <-.
           split; [now left|]. split; [exact Hd0|exact Hskip].
        -- destruct (Hin o' d' Hcall) as (H1 & H2 & H3).
           split; [now right|]. split; [exact H2|].
           rewrite Ep1, already_processed_app in H3.
           now apply orb_false_iff in H3 as [H3 _].
Qed.

Lemma prepare_loaded (n : nat) (b : Z) (w : world) (ws : list window)
      (st0 : Resumable.loop_state) :
  Resumable.prepare n b w = inr (ws, st0) ->
  stored_batches (progress_file w) = Resumable.st_processed st0
  /\ Resumable.st_world st0 = w
  /\ create_batches b (Z.of_nat n) = inr ws
  /\ (progress_file w = Missing ->
      Resumable.st_matrix st0 = zeros n /\ Resumable.st_processed st0 = [])
  /\ (forall m0 p, Resumable.load_progress (progress_file w)
                   = inr (Some m0, p) -> Resumable.st_matrix st0 = m0).
Proof.
  unfold Resumable.prepare, stored_batches.
  destruct (Resumable.load_progress (progress_file w))
    as [e|[loaded p]] eqn:L; [discriminate|].
  destruct (create_batches b (Z.of_nat n)) as [e|ws']; [discriminate|].
  intros H. injection H as <- <-.
  split; [reflexivity|]. split; [reflexivity|]. split; [reflexivity|].
  split.
  - intros Hm. rewrite Hm in L. cbn in L. now injection L as <- <-.
  - intros m0 p0 E. now injection E as -> ->.
Qed.

(** X9. Any run of the resumable class that returns: every remote call
    it issues is followed by one save of the progress file (as many saves
    as calls), and it issues no call for an origin window that the
    progress file listed when the run started. *)
Theorem resumed_run_skips_listed_origins
        (api : client) (n : nat) (b : Z) (w w' : world) (m : matrix) :
  Resumable.calculate_distances api n b w = (w', inr m) ->
  exists ext,
    trace w' = trace w ++ ext
    /\ length (filter is_save ext) = length (calls ext)
    /\ forall o d,
         In (Call o d) ext ->
         Resumable.already_processed o (stored_batches (progress_file w))
         = false.
Proof.
  intros Hrun. unfold Resumable.calculate_distances in Hrun.
  destruct (Resumable.prepare n b w) as [e|[ws st0]] eqn:P; [discriminate|].
  destruct (prepare_loaded _ _ _ _ _ P) as (Hp & Hw & _).
  injection Hrun as <- _.
  destruct (origins_trace api ws ws st0) as (ext & p' & E & _ & Hs & Hin).
  exists ext. rewrite E, Hw. split; [reflexivity|]. split; [exact Hs|].
  intros o d Hcall. rewrite Hp. now destruct (Hin o d Hcall) as (_ & _ & H).
Qed.

Lemma resumed_run_skips_listed_origins_witness :
  exists ext,
    trace (fst (Resumable.calculate_distances api_ok 4 2
                  (restart (Resumable.killed_run api_ok 4 2 1 0 fresh))))
    = [] ++ ext
    /\ length (filter is_save ext) = length (calls ext)
    /\ forall o d,
         In (Call o d) ext ->
         Resumable.already_processed o [(0, 2); (0, 2)] = false.
Proof.
  apply (resumed_run_skips_listed_origins api_ok 4 2
           (restart (Resumable.killed_run api_ok 4 2 1 0 fresh)) _
           (num_rows [[0; 2; 3; 4]; [11; 0; 13; 14];
                      [21; 22; 0; 24]; [31; 32; 33; 0]])).
  vm_compute. reflexivity.
Defined.

Lemma ascending_positive_NoDup (lo : Z) (ws : list window) :
  ascending lo ws -> (forall x, In x ws -> fst x < snd x) -> NoDup ws.
Proof.
  revert lo. induction ws as [|x ws IH]; intros lo Ha Hpos; [constructor|].
  destruct Ha as (H1 & H2 & Ha). constructor.
  - intros Hin. pose proof (ascending_from _ _ Ha x Hin).
    pose proof (Hpos x (or_introl eq_refl)). lia.
  - apply (IH _ Ha). intros y Hy. apply Hpos. now right.
Qed.

Lemma create_batches_NoDup (w : Z) (n : nat) (ws : list window) :
  create_batches w (Z.of_nat n) = inr ws -> NoDup ws.
Proof.
  intros H. destruct w as [|p|p].
  - rewrite create_batches_zero_step in H. discriminate.
  - destruct n as [|n'].
    + cbn [Z.of_nat] in H. rewrite create_batches_no_stations in H.
      injection H as <-. repeat constructor. intros [].
    + destruct (create_batches_partition (Z.pos p) (Z.of_nat (S n'))
                  ltac:(lia) ltac:(lia))
        as (ws' & E & _ & Hc & _ & _ & Hpos & _).
      rewrite E in H. injection H as <-.
      apply (ascending_positive_NoDup 0).
      * apply (chained_ascending _ _ _ Hc). intros x Hx.
        specialize (Hpos x Hx). unfold win_len in Hpos. lia.
      * intros x Hx. specialize (Hpos x Hx). unfold win_len in Hpos. lia.
  - rewrite create_batches_negative in H. injection H as <-.
    repeat constructor. intros [].
Qed.

(** When no origin of [os] is listed and [os] has no duplicates, the
    origin loop skips nothing. *)
Lemma origins_no_skip (api : client) (ds os : list window)
      (st : Resumable.loop_state) :
  NoDup os ->
  (forall o, In o os ->
     Resumable.already_processed o (Resumable.st_processed st) = false) ->
  Resumable.st_matrix (fold_left (Resumable.origin_step api ds) os st)
  = fill api os ds (Resumable.st_matrix st)
  /\ exists ext,
       trace (Resumable.st_world
                (fold_left (Resumable.origin_step api ds) os st))
       = trace (Resumable.st_world st) ++ ext
       /\ calls ext = flat_map (fun o => map (Call o) ds) os
       /\ length (filter is_sleep ext) = all_successes api os ds.
Proof.
  unfold fill, all_successes. revert st.
  induction os as [|o os IH]; intros st Hnd Hnew.
  - split; [reflexivity|]. exists []. cbn. now rewrite app_nil_r.
  - cbn [fold_left flat_map map]. inversion Hnd as [|? ? Hnotin Hnd']; subst.
    assert (Estep : Resumable.origin_step api ds st o
                    = fold_left (Resumable.request_step api o) ds st).
    { unfold Resumable.origin_step.
      now rewrite (Hnew o (or_introl eq_refl)). }
    rewrite Estep.
    set (st1 := fold_left (Resumable.request_step api o) ds st).
    assert (Hnew1 : forall o', In o' os ->
               Resumable.already_processed o' (Resumable.st_processed st1)
               = false).
    { intros o' Ho'. unfold st1.
      rewrite requests_processed, already_processed_app.
      rewrite (Hnew o' (or_intror Ho')). cbn [orb].
      apply already_processed_repeat. intros ->. contradiction. }
    destruct (IH st1 Hnd' Hnew1) as (Em & ext & Et & Hc & Hs).
    split.
    + rewrite Em. unfold st1. now rewrite requests_matrix.
    + destruct (requests_trace api o ds st) as (e1 & E1 & Hc1 & _ & Hs1).
      fold st1 in E1. exists (e1 ++ ext).
      split; [now rewrite Et, E1, app_assoc|]. split.
      * unfold calls in *. now rewrite filter_app, Hc, Hc1.
      * rewrite filter_app, length_app, Hs, Hs1. reflexivity.
Qed.

(** X10. A run of the resumable class without a progress file, for any
    batch size that builds a batch list: it returns a matrix with n rows
    of n cells, issues one request per ordered pair of windows, waits once
    per successful request, and every cell of a block holds the service's
    value when the request for its block succeeded and 0.0 when it
    failed. *)
Theorem fresh_run_cells
        (api : client) (n : nat) (b : Z) (w : world) (ws : list window) :
  progress_file w = Missing ->
  create_batches b (Z.of_nat n) = inr ws ->
  exists w' m ext,
    Resumable.calculate_distances api n b w = (w', inr m)
    /\ has_shape m n n
    /\ trace w' = trace w ++ ext
    /\ calls ext = window_pairs ws
    /\ length (filter is_sleep ext) = all_successes api ws ws
    /\ forall o d i j,
         In o ws -> In d ws ->
         in_window o (Z.of_nat i) = true -> in_window d (Z.of_nat j) = true ->
         cell_at m i j
         = Some (match api o d with
                 | Some b' => b' (Z.of_nat i - fst o) (Z.of_nat j - fst d)
                 | None => Num 0
                 end).
Proof.
  intros Hmiss Hws.
  unfold Resumable.calculate_distances, Resumable.prepare.
  rewrite Hmiss. cbn [Resumable.load_progress]. rewrite Hws.
  destruct (origins_no_skip api ws ws (zeros n, [], w)
              (create_batches_NoDup _ _ _ Hws) ltac:(reflexivity))
    as (Em & ext & Et & Hc & Hs).
  destruct (create_batches_ordered _ _ _ Hws) as [Hch Ha].
  do 3 eexists. split; [reflexivity|].
  rewrite Em. cbn [Resumable.st_matrix fst].
  split; [apply fill_shape, full_shape|].
  split; [exact Et|]. split; [exact Hc|]. split; [exact Hs|].
  intros o d i j Ho Hd Hi Hj.
  rewrite (fill_cell api 0 ws _ o d i j Ha Ho Hd Hi Hj).
  unfold zeros. rewrite cell_at_full.
  - reflexivity.
  - exact (covered_inside ws n o i Hch Ha Ho Hi).
  - exact (covered_inside ws n d j Hch Ha Hd Hj).
Qed.

Lemma fresh_run_cells_witness :
  exists w' m ext,
    Resumable.calculate_distances (api_fail_at (0, 2) (2, 3)) 3 2 fresh
    = (w', inr m)
    /\ has_shape m 3 3
    /\ trace w' = trace fresh ++ ext
    /\ calls ext = window_pairs [(0, 2); (2, 3)]
    /\ length (filter is_sleep ext)
       = all_successes (api_fail_at (0, 2) (2, 3)) [(0, 2); (2, 3)]
                       [(0, 2); (2, 3)]
    /\ forall o d i j,
         In o [(0, 2); (2, 3)] -> In d [(0, 2); (2, 3)] ->
         in_window o (Z.of_nat i) = true -> in_window d (Z.of_nat j) = true ->
         cell_at m i j
         = Some (match api_fail_at (0, 2) (2, 3) o d with
                 | Some b' => b' (Z.of_nat i - fst o) (Z.of_nat j - fst d)
                 | None => Num 0
                 end).
Proof.
  apply (fresh_run_cells (api_fail_at (0, 2) (2, 3)) 3 2 fresh
           [(0, 2); (2, 3)]); reflexivity.
Defined.

(** ** What a run leaves in the progress file *)

Lemma origin_step_synced (api : client) (ds : list window)
      (st : Resumable.loop_state) (o : window) :
  synced st -> synced (Resumable.origin_step api ds st o).
Proof.
  intros H. unfold Resumable.origin_step.
  destruct (Resumable.already_processed o (Resumable.st_processed st));
    [exact H|].
  apply requests_synced. now left.
Qed.

Lemma origins_synced (api : client) (ds os : list window)
      (st : Resumable.loop_state) :
  synced st -> synced (fold_left (Resumable.origin_step api ds) os st).
Proof.
  revert st. induction os as [|o os IH]; intros st H; [exact H|].
  cbn [fold_left]. apply IH. now apply origin_step_synced.
Qed.

(** X11. Whenever a run of the resumable class returns a matrix, the
    progress file it leaves behind can be loaded and holds exactly that
    matrix. *)
Theorem returned_matrix_is_persisted
        (api : client) (n : nat) (b : Z) (w w' : world) (m : matrix) :
  Resumable.calculate_distances api n b w = (w', inr m) ->
  exists p, Resumable.load_progress (progress_file w') = inr (Some m, p).
Proof.
  intros Hrun. unfold Resumable.calculate_distances in Hrun.
  destruct (Resumable.prepare n b w) as [e|[ws st0]] eqn:P; [discriminate|].
  destruct (prepare_loaded _ _ _ _ _ P) as (_ & Hw & Hws & Hfresh & _).
  destruct (prepare_settled _ _ _ _ _ P) as (Hset & _ & _).
  injection Hrun as <- <-.
  enough (Hs : synced (fold_left (Resumable.origin_step api ws) ws st0))
    by (eexists; exact Hs).
  destruct Hset as [Hs|Hmiss]; [now apply origins_synced|].
  rewrite Hw in Hmiss. destruct (Hfresh Hmiss) as [_ Hp].
  pose proof (create_batches_nonempty _ _ _ Hws) as Hne.
  destruct ws as [|o os]; [contradiction|].
  cbn [fold_left]. apply origins_synced.
  unfold Resumable.origin_step. rewrite Hp. cbn [Resumable.already_processed existsb].
  apply requests_synced. right. discriminate.
Qed.

Lemma returned_matrix_is_persisted_witness :
  exists p,
    Resumable.load_progress
      (progress_file
         (fst (Resumable.calculate_distances
                 (api_fail_at (0, 2) (2, 3)) 3 2 fresh)))
    = inr (Some (num_rows [[0; 2; 0]; [11; 0; 0]; [21; 22; 0]]), p).
Proof.
  apply (returned_matrix_is_persisted (api_fail_at (0, 2) (2, 3)) 3 2 fresh).
  vm_compute. reflexivity.
Defined.

Lemma writes_shape (api : client) (o : window) (ds : list window)
      (m : matrix) (rows cols : nat) :
  has_shape m rows cols ->
  has_shape (fold_left (write api o) ds m) rows cols.
Proof.
  revert m. induction ds as [|d ds IH]; intros m H; [exact H|].
  cbn [fold_left]. apply IH. unfold write.
  destruct (api o d); [now apply assign_block_shape|exact H].
Qed.

Lemma origins_shape (api : client) (ds os : list window)
      (st : Resumable.loop_state) (rows cols : nat) :
  has_shape (Resumable.st_matrix st) rows cols ->
  has_shape
    (Resumable.st_matrix (fold_left (Resumable.origin_step api ds) os st))
    rows cols.
Proof.
  revert st. induction os as [|o os IH]; intros st H; [exact H|].
  cbn [fold_left]. apply IH. unfold Resumable.origin_step.
  destruct (Resumable.already_processed o (Resumable.st_processed st));
    [exact H|].
  rewrite requests_matrix. now apply writes_shape.
Qed.

(** X12. A run of the resumable class that starts from a loadable
    progress file returns a matrix of the shape of the stored matrix,
    whatever the number of stations of the current table: the stored
    matrix is never resized or checked against the table. *)
Theorem resumed_run_keeps_snapshot_shape
        (api : client) (n : nat) (b : Z) (w w' : world)
        (m0 m : matrix) (p : list window) (rows cols : nat) :
  Resumable.load_progress (progress_file w) = inr (Some m0, p) ->
  has_shape m0 rows cols ->
  Resumable.calculate_distances api n b w = (w', inr m) ->
  has_shape m rows cols.
Proof.
  intros Hload Hshape Hrun. unfold Resumable.calculate_distances in Hrun.
  destruct (Resumable.prepare n b w) as [e|[ws st0]] eqn:P; [discriminate|].
  destruct (prepare_loaded _ _ _ _ _ P) as (_ & _ & _ & _ & Hm0).
  injection Hrun as _ <-. apply origins_shape.
  now rewrite (Hm0 _ _ Hload).
Qed.

Lemma resumed_run_keeps_snapshot_shape_witness :
  has_shape (num_rows [[0; 0]; [11; 0]]) 2 2.
Proof.
  apply (resumed_run_keeps_snapshot_shape api_ok 2 1
           {| progress_file :=
                Json {| distances := Some (zeros 2);
                        processed_batches := Some [[0; 1]] |};
              trace := [] |}
           (fst (Resumable.calculate_distances api_ok 2 1
                   {| progress_file :=
                        Json {| distances := Some (zeros 2);
                                processed_batches := Some [[0; 1]] |};
                      trace := [] |}))
           (zeros 2) _ [(0, 1)] 2 2).
  - reflexivity.
  - apply full_shape.
  - vm_compute. reflexivity.
Defined.

(** ** Loading and saving progress *)





(** ** The batch list as a partition *)

(** X15. For a positive batch size and at least one station the batch
    list has ceil(n / w) windows, the k-th being
    [k*w, min((k+1)*w, n)); the windows follow one another from 0 to n
    without gap or overlap, none is empty, all but the last have length w,
    and every station index lies in exactly one window. *)
Theorem batch_list_is_partition (w n : Z) :
  0 < w -> 1 <= n ->
  exists ws,
    create_batches w n = inr ws
    /\ Z.of_nat (length ws) = ceil_div n w
    /\ (forall k, (k < length ws)%nat -> nth k ws (0, 0) = nth_window w n k)
    /\ chained 0 ws n
    /\ (forall x, In x ws -> 0 < win_len x <= w)
    /\ (forall k, (S k < length ws)%nat -> win_len (nth k ws (0, 0)) = w)
    /\ (forall i, 0 <= i < n ->
          exists k, (k < length ws)%nat
            /\ in_window (nth k ws (0, 0)) i = true
            /\ forall k', (k' < length ws)%nat ->
                 in_window (nth k' ws (0, 0)) i = true -> k' = k).
Proof.
  intros Hw Hn.
  destruct (create_batches_partition w n Hw Hn)
    as (ws & E & Hlen & Hc & Hfull & Hlast & Hpos & Hcover).
  pose proof (create_batches_windows w n Hw Hn) as E'.
  assert (Ews : ws = map (nth_window w n)
                         (seq 0 (S (Z.to_nat ((n - 1) / w)))))
    by congruence.
  clear E'. rename Ews into E'.
  exists ws. split; [exact E|]. split; [exact Hlen|].
  split.
  { intros k Hk. revert Hk. rewrite E', length_map, length_seq. intros Hk.
    now apply nth_windows. }
  split; [exact Hc|]. split.
  { intros x Hx. split; [now apply Hpos|].
    rewrite E' in Hx. apply in_map_iff in Hx as (k & <- & _).
    unfold win_len, nth_window. cbn [fst snd]. lia. }
  split; [exact Hfull|exact Hcover].
Qed.

Lemma batch_list_is_partition_witness :
  exists ws,
    create_batches 80 200 = inr ws
    /\ Z.of_nat (length ws) = ceil_div 200 80
    /\ (forall k, (k < length ws)%nat -> nth k ws (0, 0) = nth_window 80 200 k)
    /\ chained 0 ws 200
    /\ (forall x, In x ws -> 0 < win_len x <= 80)
    /\ (forall k, (S k < length ws)%nat -> win_len (nth k ws (0, 0)) = 80)
    /\ (forall i, 0 <= i < 200 ->
          exists k, (k < length ws)%nat
            /\ in_window (nth k ws (0, 0)) i = true
            /\ forall k', (k' < length ws)%nat ->
                 in_window (nth k' ws (0, 0)) i = true -> k' = k).
Proof. apply batch_list_is_partition; lia. Defined.

(** ** The request payload of the module-level function *)

Lemma window_points_slice (data : list station) (a b : Z) :
  0 <= a -> a <= b -> b <= Z.of_nat (length data) ->
  window_points data a b = inr (map lat_lon (slice data a b))
  /\ length (slice data a b) = Z.to_nat (b - a).
Proof.
  intros Ha Hab Hb. unfold window_points, slice. rewrite py_range_unit.
  split.
  - apply (collect_rows lat_lon); lia.
  - rewrite length_firstn, length_skipn. lia.
Qed.

Lemma unit_range (a : Z) (len : nat) :
  0 <= a ->
  map (fun k => a + Z.of_nat k * 1) (seq 0 len)
  = map Z.of_nat (seq (Z.to_nat a) len).
Proof.
  revert a. induction len as [|len IH]; intros a Ha; [reflexivity|].
  rewrite <- (cons_seq len 0), <- seq_shift. cbn [map]. rewrite map_map.
  rewrite <- (cons_seq len (Z.to_nat a)). cbn [map].
  f_equal; [lia|].
  rewrite (map_ext _ (fun k => (a + 1) + Z.of_nat k * 1)) by (intros; lia).
  rewrite IH by lia. do 2 f_equal. lia.
Qed.

(** X16. For an origin window and a destination window inside the table,
    the module-level function sends the (lat, lon) points of the origin
    rows followed by those of the destination rows, addresses the first
    [i_end - i] positions as sources and all remaining positions as
    targets, so that every point is addressed exactly once. *)
Theorem payload_addresses_every_point
        (data : list station) (i i_end j j_end : Z) :
  0 <= i -> i <= i_end -> i_end <= Z.of_nat (length data) ->
  0 <= j -> j <= j_end -> j_end <= Z.of_nat (length data) ->
  exists p,
    build_payload data i i_end j j_end = inr p
    /\ points p = map lat_lon (slice data i i_end)
                  ++ map lat_lon (slice data j j_end)
    /\ from_point p = map Z.of_nat (seq 0 (Z.to_nat (i_end - i)))
    /\ to_point p
       = map Z.of_nat (seq (Z.to_nat (i_end - i)) (Z.to_nat (j_end - j)))
    /\ from_point p ++ to_point p
       = map Z.of_nat (seq 0 (length (points p))).
Proof.
  intros Hi Hii Hie Hj Hjj Hje. unfold build_payload.
  destruct (window_points_slice data i i_end Hi Hii Hie) as [-> Lo].
  destruct (window_points_slice data j j_end Hj Hjj Hje) as [-> Ld].
  cbv zeta. rewrite !py_range_unit.
  eexists. split; [reflexivity|]. cbn [points from_point to_point].
  assert (Hlen : length (map lat_lon (slice data i i_end)
                         ++ map lat_lon (slice data j j_end))
                 = (Z.to_nat (i_end - i) + Z.to_nat (j_end - j))%nat)
    by (rewrite length_app, !length_map; lia).
  rewrite Hlen.
  replace (Z.to_nat (Z.of_nat (Z.to_nat (i_end - i) + Z.to_nat (j_end - j))
                     - (i_end - i)))
    with (Z.to_nat (j_end - j)) by lia.
  replace (Z.to_nat (i_end - i - 0)) with (Z.to_nat (i_end - i)) by lia.
  rewrite (unit_range 0) by lia. rewrite (unit_range (i_end - i)) by lia.
  cbn [Z.to_nat].
  split; [reflexivity|]. split; [reflexivity|]. split; [reflexivity|].
  now rewrite <- map_app, <- seq_app.
Qed.

Lemma payload_addresses_every_point_witness :
  exists p,
    build_payload
      [ {| station_id := 7; station_lat := 52; station_lon := 13 |};
        {| station_id := 8; station_lat := 48; station_lon := 11 |};
        {| station_id := 9; station_lat := 50; station_lon := 8 |} ]
      0 2 2 3 = inr p
    /\ points p = [(52, 13); (48, 11); (50, 8)]
    /\ from_point p = [0; 1]
    /\ to_point p = [2]
    /\ from_point p ++ to_point p = [0; 1; 2].
Proof.
  destruct (payload_addresses_every_point
              [ {| station_id := 7; station_lat := 52; station_lon := 13 |};
                {| station_id := 8; station_lat := 48; station_lon := 11 |};
                {| station_id := 9; station_lat := 50; station_lon := 8 |} ]
              0 2 2 3) as (p & E & Hp & Hf & Ht & Ha); cbn; try lia.
  exists p. rewrite Hf, Ht, Hp. repeat split; try reflexivity. exact E.
Defined.

(** ** Resuming from a progress file, cell by cell *)

Lemma ascending_weaken (lo lo' : Z) (ws : list window) :
  lo' <= lo -> ascending lo ws -> ascending lo' ws.
Proof.
  destruct ws as [|x ws]; [trivial|]. cbn [ascending].
  intros Hle (H1 & H2 & Ha). repeat split; [lia|lia|exact Ha].
Qed.

Lemma ascending_filter (f : window -> bool) (lo : Z) (ws : list window) :
  ascending lo ws -> ascending lo (filter f ws).
Proof.
  revert lo. induction ws as [|x ws IH]; intros lo Ha; [exact I|].
  destruct Ha as (H1 & H2 & Ha). cbn [filter]. destruct (f x).
  - cbn [ascending]. repeat split; [lia|lia|now apply IH].
  - apply IH. apply (ascending_weaken (snd x)); [lia|exact Ha].
Qed.

(** The origin loop requests exactly the origins that were not listed
    when it started. *)
Lemma origins_matrix (api : client) (ds os : list window)
      (st : Resumable.loop_state) :
  NoDup os ->
  Resumable.st_matrix (fold_left (Resumable.origin_step api ds) os st)
  = fill api
      (filter (fun o => negb (Resumable.already_processed
                                o (Resumable.st_processed st))) os)
      ds (Resumable.st_matrix st).
Proof.
  unfold fill. revert st. induction os as [|o os IH]; intros st Hnd;
    [reflexivity|].
  inversion Hnd as [|? ? Hnotin Hnd']; subst.
  cbn [fold_left filter]. rewrite (IH _ Hnd').
  unfold Resumable.origin_step.
  destruct (Resumable.already_processed o (Resumable.st_processed st))
    eqn:Hskip; cbn [negb]; [reflexivity|].
  cbn [fold_left]. rewrite requests_matrix. f_equal.
  apply filter_ext_in. intros o' Ho'. f_equal.
  rewrite requests_processed, already_processed_app.
  rewrite (already_processed_repeat o o'); [apply orb_false_r|].
  intros ->. contradiction.
Qed.

(** X17. A run of the resumable class that starts from a loadable
    progress file: a cell in the rows of an origin window that the file
    lists is returned exactly as stored, whether or not its block was
    ever requested; a cell in the rows of an unlisted origin window holds
    the service's value when the request for its block succeeds and the
    stored value when it fails. *)
Theorem resumed_run_cells
        (api : client) (n : nat) (b : Z) (w w' : world)
        (m0 m : matrix) (p ws : list window) (o d : window) (i j : nat) :
  Resumable.load_progress (progress_file w) = inr (Some m0, p) ->
  create_batches b (Z.of_nat n) = inr ws ->
  Resumable.calculate_distances api n b w = (w', inr m) ->
  In o ws -> In d ws ->
  in_window o (Z.of_nat i) = true -> in_window d (Z.of_nat j) = true ->
  cell_at m i j
  = option_map
      (fun c => if Resumable.already_processed o p then c
                else match api o d with
                     | Some b' => b' (Z.of_nat i - fst o) (Z.of_nat j - fst d)
                     | None => c
                     end)
      (cell_at m0 i j).
Proof.
  intros Hload Hws Hrun Ho Hd Hi Hj.
  unfold Resumable.calculate_distances, Resumable.prepare in Hrun.
  rewrite Hload, Hws in Hrun. injection Hrun as _ <-.
  rewrite origins_matrix by exact (create_batches_NoDup _ _ _ Hws).
  cbn [Resumable.st_processed Resumable.st_matrix fst snd].
  destruct (create_batches_ordered _ _ _ Hws) as [_ Ha].
  destruct (Resumable.already_processed o p) eqn:Hlisted.
  - rewrite fill_untouched.
    + now destruct (cell_at m0 i j).
    + intros o' Ho'. apply filter_In in Ho' as [Ho' Hun].
      destruct (ascending_unique _ _ _ _ Ha Ho Hi)
        as (l1 & l2 & E & A1 & A2).
      rewrite E in Ho'. apply in_app_or in Ho' as [Ho'|[<-|Ho']].
      * now apply A1.
      * rewrite Hlisted in Hun. discriminate.
      * now apply A2.
  - apply (fill_cell_general api 0 0); try assumption.
    + now apply ascending_filter.
    + apply filter_In. split; [exact Ho|]. now rewrite Hlisted.
Qed.

Lemma resumed_run_cells_witness :
  cell_at (num_rows [[0; 2; 3; 4]; [11; 0; 13; 14];
                     [21; 22; 0; 0]; [31; 32; 0; 0]]) 2 3
  = Some (Num 0).
Proof.
  apply (resumed_run_cells api_ok 4 2
           (restart (Resumable.killed_run api_ok 4 2 1 1 fresh))
           (restart (Resumable.killed_run api_ok 4 2 1 1 fresh))
           (num_rows [[0; 2; 3; 4]; [11; 0; 13; 14];
                      [21; 22; 0; 0]; [31; 32; 0; 0]])
           (num_rows [[0; 2; 3; 4]; [11; 0; 13; 14];
                      [21; 22; 0; 0]; [31; 32; 0; 0]])
           [(0, 2); (0, 2); (2, 4)] [(0, 2); (2, 4)] (2, 4) (2, 4) 2 3);
    try (vm_compute; reflexivity); cbn; tauto.
Defined.

(** ** Interrupted runs *)



